(** * The ASKAP cutout daemon: admission-control scheduler

    A shallow embedding of [askap_cutout_daemon.py]: the scheduler state
    the daemon mutates ([active_ids], [active_ms], [remaining_array_ids],
    [completed_srcs], [failed_srcs]), the four functions that touch it
    ([register_active], [mark_comp_done], [job_loop],
    [produce_all_cutouts]), the two that prepare their input
    ([read_image_params], [build_map]) and the properties of the scheduler
    that follow from them.

    Python objects are modelled as follows.
    - [set] of ints / strings: [gset Z] / [gset string];
    - [dict] from component name to a set of measurement sets:
      [gmap string (gset string)];
    - [list]: [list], with Python's indexing (negative indices count from
      the end, out of range raises [IndexError]) and Python's
      [list.remove] (first occurrence, [ValueError] when absent);
    - exceptions: the functions live in a state-and-exception monad [Py];
      a raise keeps the mutations made before it, as in Python, where the
      mutated objects are shared with the caller;
    - the outside world (marker files, the exit code of a submitted
      command, whether a sleep is carried out) is an oracle passed in
      explicitly;
    - [print] and [run_os_cmd] calls are recorded, in order, in a trace. *)

From stdpp Require Import gmap strings list sets pretty.

(* [set_solver] clears hypotheses it has already consumed. *)
#[local] Set Warnings "-clear-no-such-hyp".

Local Open Scope Z_scope.

(** ** Exceptions and the monad *)

Inductive exn : Type :=
  | TypeError
  | IndexError
  | KeyError
  | ValueError
  | OverflowError
  | OSErrorRaised
  | ZeroDivisionError
  | CommandFailedError (cmd_array_id : Z)
  | Exception (msg : string).

Inductive outcome (A : Type) : Type :=
  | Return (a : A)
  | Raise (e : exn).
Arguments Return {A} a.
Arguments Raise {A} e.

(** What the daemon writes to its standard output, and the commands it
    hands to [run_os_cmd], one constructor per call site. *)
Inductive event : Type :=
  | PrintProcessing (n : nat)
  | PrintRegistered (array_id : Z) (concurrency : nat)
  | PrintLoop (i : Z)
  | PrintCompleted (array_id : Z)
  | PrintSkipCompleted (array_id : Z)
  | PrintFailed (array_id : Z)
  | PrintSkipFailed (array_id : Z)
  | PrintStarting (array_id : Z) (concurrency : nat)
  | PrintRateLimit (concurrency_limit : Z)
  | RunOsCmd (use_pbs : bool) (array_id : Z)
  | PrintError (msg : string)
  | PrintFinished (i total_concurrency : Z).

(** The objects [produce_all_cutouts] creates and every callee mutates. *)
Record State : Type := mkState {
  active_ids : gset Z;
  active_ms : list string;
  remaining_array_ids : list Z;
  completed_srcs : gset string;
  failed_srcs : gset string;
  trace : list event
}.

Definition Py (A : Type) : Type := State → State * outcome A.

Definition ret {A} (a : A) : Py A := λ s, (s, Return a).
Definition raise {A} (e : exn) : Py A := λ s, (s, Raise e).
Definition bind {A B} (m : Py A) (k : A → Py B) : Py B :=
  λ s, match m s with
       | (s', Return a) => k a s'
       | (s', Raise e) => (s', Raise e)
       end.
Definition get : Py State := λ s, (s, Return s).
Definition modify (f : State → State) : Py unit := λ s, (f s, Return tt).

Declare Scope py_scope.
Delimit Scope py_scope with py.
Notation "x <- m ;; k" := (bind m (λ x, k))
  (at level 100, m at next level, right associativity) : py_scope.
Notation "m ;;; k" := (bind m (λ _, k))
  (at level 100, right associativity) : py_scope.
Local Open Scope py_scope.

(** [for x in l: body], with the local variables the body updates
    threaded through as [loc]. *)
Fixpoint for_in {A L} (l : list A) (body : A → L → Py L) (loc : L) : Py L :=
  match l with
  | [] => ret loc
  | x :: l' => loc' <- body x loc ;; for_in l' body loc'
  end.

(** ** Python list and dict primitives *)

(** [l[i]]: a negative index counts from the end. *)
Definition py_getitem {A} (l : list A) (i : Z) : option A :=
  if bool_decide (0 ≤ i) then l !! Z.to_nat i
  else if bool_decide (0 ≤ Z.of_nat (length l) + i)
       then l !! Z.to_nat (Z.of_nat (length l) + i)
       else None.

(** [l.remove(x)]: drops the first occurrence; [None] is [ValueError]. *)
Fixpoint py_list_remove {A} `{EqDecision A} (x : A) (l : list A)
  : option (list A) :=
  match l with
  | [] => None
  | y :: l' =>
      if decide (y = x) then Some l'
      else match py_list_remove x l' with
           | Some r => Some (y :: r)
           | None => None
           end
  end.

(** State updates, one per mutated object. *)
Definition set_active_ids (f : gset Z → gset Z) (s : State) : State :=
  mkState (f (active_ids s)) (active_ms s) (remaining_array_ids s)
          (completed_srcs s) (failed_srcs s) (trace s).
Definition set_active_ms (f : list string → list string) (s : State) : State :=
  mkState (active_ids s) (f (active_ms s)) (remaining_array_ids s)
          (completed_srcs s) (failed_srcs s) (trace s).
Definition set_remaining (f : list Z → list Z) (s : State) : State :=
  mkState (active_ids s) (active_ms s) (f (remaining_array_ids s))
          (completed_srcs s) (failed_srcs s) (trace s).
Definition set_completed (f : gset string → gset string) (s : State) : State :=
  mkState (active_ids s) (active_ms s) (remaining_array_ids s)
          (f (completed_srcs s)) (failed_srcs s) (trace s).
Definition set_failed (f : gset string → gset string) (s : State) : State :=
  mkState (active_ids s) (active_ms s) (remaining_array_ids s)
          (completed_srcs s) (f (failed_srcs s)) (trace s).
Definition emit (e : event) : Py unit :=
  modify (λ s, mkState (active_ids s) (active_ms s) (remaining_array_ids s)
                       (completed_srcs s) (failed_srcs s) (trace s ++ [e])).

(** [targets[array_id-1]] and [src_beam_map[comp_name]]. *)
Definition lookup_target (targets : list string) (array_id : Z) : Py string :=
  match py_getitem targets (array_id - 1) with
  | Some comp_name => ret comp_name
  | None => raise IndexError
  end.
Definition lookup_beams (src_beam_map : gmap string (gset string))
    (comp_name : string) : Py (gset string) :=
  match src_beam_map !! comp_name with
  | Some beams => ret beams
  | None => raise KeyError
  end.

(** [for ms in tgt_ms: active_ms.append(ms)] *)
Definition append_ms (tgt_ms : gset string) : Py unit :=
  modify (set_active_ms (λ l, l ++ elements tgt_ms)).

(** ** [read_image_params] and [build_map] (lines 84-107)

    A row of the table is a component name with one of its beam ids (a
    measurement set). [read_image_params] is given the rows already
    parsed, and returns them unchanged next to the targets. [build_map]
    adds the beam id to the set stored under the name, a set it creates
    on the first row of the name. *)
Definition add_target (targets : list string) (row : string * string)
  : list string :=
  if bool_decide (row.1 ∈ targets) then targets else targets ++ [row.1].

Definition read_image_params (image_params : list (string * string))
  : list string :=
  foldl add_target [] image_params.

Definition add_beam (src_beam_map : gmap string (gset string))
    (row : string * string) : gmap string (gset string) :=
  let beams := default ∅ (src_beam_map !! row.1) in
  <[row.1 := beams ∪ {[row.2]}]> src_beam_map.

Definition build_map (image_params : list (string * string))
  : gmap string (gset string) :=
  foldl add_beam ∅ image_params.

(** ** [register_active] (lines 110-124)

    [pre_active_jobs] comes from an [action='append'] option: it is [None]
    when the option is absent. [register_one] is the body of the loop. *)
Definition register_one (targets : list string)
    (src_beam_map : gmap string (gset string))
    (array_id : Z) (_ : unit) : Py unit :=
  comp_name <- lookup_target targets array_id ;;
  tgt_ms <- lookup_beams src_beam_map comp_name ;;
  append_ms tgt_ms ;;;
  modify (set_active_ids (λ a, {[array_id]} ∪ a)) ;;;
  s <- get ;;
  emit (PrintRegistered array_id (size (active_ids s))).

Definition register_active (targets : list string)
    (src_beam_map : gmap string (gset string))
    (pre_active_jobs : option (list Z)) : Py nat :=
  match pre_active_jobs with
  | None | Some [] => ret 0%nat
  | Some jobs =>
      for_in jobs (register_one targets src_beam_map) tt ;;;
      s <- get ;;
      ret (size (active_ids s))
  end.

(** ** [mark_comp_done] (lines 127-130)

    [set.remove] raises [KeyError] on a missing element, [list.remove]
    raises [ValueError]. [release_one] is the body of the loop. *)
Definition release_one (ms : string) (_ : unit) : Py unit :=
  s <- get ;;
  match py_list_remove ms (active_ms s) with
  | Some l => modify (set_active_ms (λ _, l))
  | None => raise ValueError
  end.

Definition mark_comp_done (array_id : Z) (tgt_ms : gset string) : Py unit :=
  s <- get ;;
  (if bool_decide (array_id ∈ active_ids s)
   then modify (set_active_ids (λ a, a ∖ {[array_id]}))
   else raise KeyError) ;;;
  for_in (elements tgt_ms) release_one tt.

(** ** [run_os_cmd] (lines 60-81)

    The command line is determined by [use_pbs], [array_id] and the fixed
    [sbid] and [log_folder]; the trace records the first two. The world
    answers with the exit code of the shell, or with [OSError]. The
    [except OSError] handler concatenates a [str] with the exception
    object, which is itself a [TypeError]. [failOnErr] is never overridden
    by a caller. *)
Inductive call_result : Type :=
  | Retcode (retcode : Z)
  | OSError.

Definition run_os_cmd (subprocess_call : Z → call_result)
    (use_pbs : bool) (array_id : Z) : Py unit :=
  emit (RunOsCmd use_pbs array_id) ;;;
  match subprocess_call array_id with
  | Retcode retcode =>
      if bool_decide (retcode ≠ 0) then raise (CommandFailedError array_id)
      else ret tt
  | OSError => raise TypeError
  end.

(** [tgt_ms & active_ms] (line 176): [tgt_ms] is a [set] and [active_ms]
    a [list]. The operator [&] of a [set] accepts only a [set] or a
    [frozenset] on the other side (unlike the method [intersection]);
    [set.__and__] answers [NotImplemented] for a [list], a [list] has no
    [__rand__], and the interpreter raises [TypeError]. *)
Definition set_and_list (tgt_ms : gset string) (active_ms : list string)
  : Py (gset string) := raise TypeError.

(** [remaining_array_ids.remove(array_id)] *)
Definition remove_remaining (array_id : Z) : Py unit :=
  s <- get ;;
  match py_list_remove array_id (remaining_array_ids s) with
  | Some l => modify (set_remaining (λ _, l))
  | None => raise ValueError
  end.

(** ** [job_loop] (lines 133-197) *)
Section job_loop.
Context (targets : list string) (src_beam_map : gmap string (gset string)).
Context (concurrency_limit min_concurrency_limit : Z) (use_pbs : bool).
(** The status folder and the submission command during this call. *)
Context (isfile_completed isfile_failed : Z → bool).
Context (subprocess_call : Z → call_result).

(** Lines 146-153 and 156-163: the two branches differ in the set the
    name goes to and in what they print. *)
Definition retire (array_id : Z) (comp_name : string)
    (done skipped : event)
    (add_src : (gset string → gset string) → State → State) : Py unit :=
  s <- get ;;
  (if bool_decide (array_id ∈ active_ids s)
   then emit done ;;;
        tgt_ms <- lookup_beams src_beam_map comp_name ;;
        mark_comp_done array_id tgt_ms
   else emit skipped) ;;;
  modify (add_src (λ srcs, {[comp_name]} ∪ srcs)) ;;;
  remove_remaining array_id.

(** Body of the first loop (lines 140-163). *)
Definition scan_completed (array_id : Z) (_ : unit) : Py unit :=
  comp_name <- lookup_target targets array_id ;;
  s <- get ;;
  if bool_decide (comp_name ∈ completed_srcs s)
     || bool_decide (comp_name ∈ failed_srcs s) then ret tt
  else if isfile_completed array_id then
    retire array_id comp_name (PrintCompleted array_id)
           (PrintSkipCompleted array_id) set_completed
  else if isfile_failed array_id then
    retire array_id comp_name (PrintFailed array_id)
           (PrintSkipFailed array_id) set_failed
  else ret tt.

(** Body of the second loop (lines 167-196); the local [rate_limited]
    is threaded through. *)
Definition scan_start (array_id : Z) (rate_limited : bool) : Py bool :=
  s <- get ;;
  if bool_decide (array_id ∈ active_ids s) then ret rate_limited else
  comp_name <- lookup_target targets array_id ;;
  if bool_decide (comp_name ∈ completed_srcs s) then ret rate_limited else
  tgt_ms <- lookup_beams src_beam_map comp_name ;;
  conflict <- (if bool_decide (min_concurrency_limit < Z.of_nat (size (active_ids s)))
               then both <- set_and_list tgt_ms (active_ms s) ;;
                    ret (bool_decide (both ≠ ∅))
               else ret false) ;;
  if conflict : bool then ret rate_limited else
  if bool_decide (Z.of_nat (size (active_ids s)) < concurrency_limit) then
    append_ms tgt_ms ;;;
    modify (set_active_ids (λ a, {[array_id]} ∪ a)) ;;;
    s' <- get ;;
    emit (PrintStarting array_id (size (active_ids s'))) ;;;
    run_os_cmd subprocess_call use_pbs array_id ;;;
    ret false
  else if negb rate_limited then
    emit (PrintRateLimit concurrency_limit) ;;;
    ret true
  else ret rate_limited.

(** The two phases of a cycle. The first iterates over a copy of
    [remaining_array_ids]; the second over the list itself, which it
    does not mutate. *)
Definition completion_phase : Py unit :=
  s <- get ;;
  let ids_to_scan := remaining_array_ids s in
  for_in ids_to_scan scan_completed tt.

Definition admission_phase : Py bool :=
  s <- get ;;
  for_in (remaining_array_ids s) scan_start false.

Definition job_loop : Py nat :=
  completion_phase ;;;
  admission_phase ;;;
  s <- get ;;
  ret (size (active_ids s)).
End job_loop.

(** ** [produce_all_cutouts] (lines 200-231) *)
Section produce_all_cutouts.
Context (targets : list string) (src_beam_map : gmap string (gset string)).
Context (delay concurrency_limit min_concurrency_limit : Z) (use_pbs : bool).
Context (pre_active_jobs : option (list Z)) (max_loops : Z).
(** The world: marker files as seen during loop [i], the outcome of
    submitting job [array_id], and whether the operating system carries
    out the sleep that ends loop [i]. *)
Context (isfile_completed isfile_failed : Z → Z → bool).
Context (subprocess_call : Z → call_result).
Context (os_sleep : Z → bool).

(** [list(range(1, len(targets)+1))] and the four empty collections. *)
Definition init_state : State :=
  mkState ∅ [] (Z.of_nat <$> seq 1 (length targets)) ∅ ∅ [].

(** [time.sleep(delay)], [delay] an [int] ([type=int] on line 35), at the
    end of loop [i]. CPython first converts the length to a number of
    nanoseconds in a signed 64-bit integer, and raises [OverflowError]
    when it does not fit: [9223372036] is the largest number of seconds
    that does. It then rejects a negative length with [ValueError].
    Whether the sleep itself is carried out is up to the operating
    system, which can refuse a length it accepts at other times (the
    deadline, the current clock reading plus the length, has a range of its
    own): the call then raises [OSError]. *)
Definition sleep (i : Z) : Py unit :=
  if bool_decide (delay < -9223372036) || bool_decide (9223372036 < delay)
  then raise OverflowError
  else if bool_decide (delay < 0) then raise ValueError
  else if os_sleep i then ret tt
  else raise OSErrorRaised.

(** One iteration of the [while] body up to the return of [job_loop]
    (lines 214-220), for the value [i] already incremented. *)
Definition cycle (i : Z) : Py nat :=
  emit (PrintLoop i) ;;;
  job_loop targets src_beam_map concurrency_limit min_concurrency_limit
           use_pbs (isfile_completed i) (isfile_failed i) subprocess_call.

(** Lines 221-222, at the end of loop [i]. *)
Definition pause (i : Z) : Py unit :=
  s <- get ;;
  if bool_decide (0 < length (remaining_array_ids s))%nat then sleep i
  else ret tt.

Definition loop_test (i : Z) (s : State) : bool :=
  bool_decide (0 < length (remaining_array_ids s))%nat
  && bool_decide (i < max_loops).

(** The [while] loop (lines 213-222). [fuel] only makes the recursion
    structural: [while_loop_fuel] shows that [Z.to_nat (max_loops - i)]
    is enough never to reach the [O] branch. *)
Fixpoint while_loop (fuel : nat) (i total_concurrency : Z) : Py (Z * Z) :=
  s <- get ;;
  if loop_test i s then
    match fuel with
    | O => ret (i, total_concurrency)
    | S fuel' =>
        let i := i + 1 in
        n <- cycle i ;;
        pause i ;;;
        while_loop fuel' i (total_concurrency + Z.of_nat n)
    end
  else ret (i, total_concurrency).

Definition exhausted_msg (i : Z) (n : nat) : string :=
  "ERROR: Failed to complete processing after " +:+ pretty i
  +:+ " loops. " +:+ pretty n +:+ " cutouts remain".

(** Lines 224-231. The average concurrency is [total_concurrency/i]:
    a true division, which raises on [i = 0]. *)
Definition report (i total_concurrency : Z) : Py unit :=
  s <- get ;;
  if bool_decide (0 < length (remaining_array_ids s))%nat then
    let msg := exhausted_msg i (length (remaining_array_ids s)) in
    emit (PrintError msg) ;;;
    raise (Exception msg)
  else if bool_decide (i = 0) then raise ZeroDivisionError
  else emit (PrintFinished i total_concurrency).

(** Lines 202-211: everything before the loop. *)
Definition pre_activation : Py nat :=
  s <- get ;;
  emit (PrintProcessing (length (remaining_array_ids s))) ;;;
  register_active targets src_beam_map pre_active_jobs.

Definition produce_all_cutouts : Py unit :=
  n <- pre_activation ;;
  r <- while_loop (Z.to_nat max_loops) 0 (Z.of_nat n) ;;
  report r.1 r.2.
End produce_all_cutouts.

(** * The vocabulary of the properties *)

(** ** The measurement sets of a job

    [src_beam_map[targets[array_id-1]]], the expression every function
    uses to go from a job id to its measurement sets; [None] when either
    lookup raises. *)
Definition job_ms (targets : list string)
    (src_beam_map : gmap string (gset string)) (array_id : Z)
  : option (gset string) :=
  comp_name ← py_getitem targets (array_id - 1); src_beam_map !! comp_name.

(** The measurement sets of a list of jobs, with multiplicity. *)
Definition held_by (targets : list string)
    (src_beam_map : gmap string (gset string)) (ids : list Z) : list string :=
  ids ≫= λ array_id, elements (default ∅ (job_ms targets src_beam_map array_id)).

(** ** What each phase prints *)

Definition completion_event (e : event) : bool :=
  match e with
  | PrintCompleted _ | PrintSkipCompleted _
  | PrintFailed _ | PrintSkipFailed _ => true
  | _ => false
  end.

Definition admission_event (e : event) : bool :=
  match e with
  | PrintStarting _ _ | PrintRateLimit _ | RunOsCmd _ _ => true
  | _ => false
  end.

(** [emitted P s s']: the trace of [s'] is that of [s] followed by events
    of class [P]. *)
Definition emitted (P : event → bool) (s s' : State) : Prop :=
  ∃ evs, trace s' = trace s ++ evs ∧ Forall P evs.

(** ** How the two phases change the state *)

(** [shrinks s s']: nothing but removals from [active_ids] and
    [active_ms], and what the first loop prints, separates the held
    resources of [s'] from those of [s]. *)
Record shrinks (s s' : State) : Prop := mkShrinks {
  shrinks_active_ids : active_ids s' ⊆ active_ids s;
  shrinks_active_ms : active_ms s' ⊆+ active_ms s;
  shrinks_trace : emitted completion_event s s'
}.

(** [grows s s']: nothing but additions to [active_ids] and [active_ms],
    and what the second loop prints and submits, separates [s'] from
    [s]. *)
Record grows (s s' : State) : Prop := mkGrows {
  grows_remaining : remaining_array_ids s' = remaining_array_ids s;
  grows_completed : completed_srcs s' = completed_srcs s;
  grows_failed : failed_srcs s' = failed_srcs s;
  grows_active_ids : active_ids s ⊆ active_ids s';
  grows_active_ms : active_ms s `prefix_of` active_ms s';
  grows_trace : emitted admission_event s s'
}.

(** The two [continue]s that pass over a job which is running or whose
    name has completed (lines 167-172). *)
Definition passed_over (targets : list string) (s : State) (array_id : Z)
  : Prop :=
  array_id ∈ active_ids s
  ∨ ∃ comp_name, py_getitem targets (array_id - 1) = Some comp_name
                 ∧ comp_name ∈ completed_srcs s.

(** The state right after lines 181-193 have admitted [array_id]. *)
Definition admitted (use_pbs : bool) (array_id : Z) (tgt_ms : gset string)
    (s : State) : State :=
  mkState ({[array_id]} ∪ active_ids s) (active_ms s ++ elements tgt_ms)
    (remaining_array_ids s) (completed_srcs s) (failed_srcs s)
    (trace s ++ [PrintStarting array_id (size ({[array_id]} ∪ active_ids s));
                 RunOsCmd use_pbs array_id]).

(** ** Invariants *)

(** [within M s]: at most [M] jobs are active. *)
Definition within (M : Z) (s : State) : Prop :=
  Z.of_nat (size (active_ids s)) ≤ M.

(** [held_with extra s]: [active_ms] is, up to order, the measurement
    sets of the active jobs, each job counted once, and [extra] besides;
    every active job has measurement sets. With no [extra] the held
    measurement sets are exactly those of the active jobs. *)
Definition held_with (targets : list string)
    (src_beam_map : gmap string (gset string)) (extra : list string)
    (s : State) : Prop :=
  active_ms s ≡ₚ held_by targets src_beam_map (elements (active_ids s)) ++ extra
  ∧ ∀ array_id, array_id ∈ active_ids s →
                is_Some (job_ms targets src_beam_map array_id).

(** ** Iterations *)

(** The iterations a run has entered are the [PrintLoop] lines of its
    trace (line 215 is the first statement of the loop body after the
    increment of [i]). *)
Definition loop_event (e : event) : bool :=
  match e with PrintLoop _ => true | _ => false end.

Definition loops (tr : list event) : nat := length (filter loop_event tr).

(** [loops_within n s s']: from [s] to [s'] the trace gained at most [n]
    iterations. *)
Definition loops_within (n : nat) (s s' : State) : Prop :=
  ∃ evs, trace s' = trace s ++ evs ∧ (loops evs ≤ n)%nat.

(** ** Observation points *)

(** [returns r]: the computation with result [r] returned. *)
Definition returns {A} (r : State * outcome A) : bool :=
  match r.2 with Return _ => true | Raise _ => false end.

Section observation.
Context (targets : list string) (src_beam_map : gmap string (gset string)).
Context (delay concurrency_limit min_concurrency_limit : Z) (use_pbs : bool).
Context (pre_active_jobs : option (list Z)) (max_loops : Z).
Context (isfile_completed isfile_failed : Z → Z → bool).
Context (subprocess_call : Z → call_result).
Context (os_sleep : Z → bool).

(** The state at the [k]-th observation point of the run: after
    pre-activation ([k = 0]), and after the [k]-th return of [job_loop].
    For a cycle to follow an earlier one, the [sleep] that ended the
    earlier one must have returned. [None] when the run does not get
    that far. *)
Fixpoint observation (k : nat) : option State :=
  match k with
  | O => match pre_activation targets src_beam_map pre_active_jobs
                 (init_state targets) with
         | (s, Return _) => Some s
         | (_, Raise _) => None
         end
  | S k' =>
      match observation k' with
      | Some s =>
          if loop_test max_loops (Z.of_nat k') s
             && (bool_decide (k' = 0%nat)
                 || returns (sleep delay os_sleep (Z.of_nat k') s))
          then match cycle targets src_beam_map concurrency_limit
                        min_concurrency_limit use_pbs isfile_completed
                        isfile_failed subprocess_call (Z.of_nat k' + 1) s with
               | (s', Return _) => Some s'
               | (_, Raise _) => None
               end
          else None
      | None => None
      end
  end.
End observation.


(** ** Retired jobs *)

(** [retired targets s array_id]: the name of the job is among the
    completed or the failed names. *)
Definition retired (targets : list string) (s : State) (array_id : Z) : Prop :=
  ∃ comp_name, py_getitem targets (array_id - 1) = Some comp_name
               ∧ (comp_name ∈ completed_srcs s ∨ comp_name ∈ failed_srcs s).

(** [retires targets s s']: from [s] to [s'] names were only added to the
    completed and the failed names, ids were only taken out of the queue,
    and only ids whose job is retired in [s']. *)
Record retires (targets : list string) (s s' : State) : Prop := mkRetires {
  retires_completed : completed_srcs s ⊆ completed_srcs s';
  retires_failed : failed_srcs s ⊆ failed_srcs s';
  retires_remaining :
    remaining_array_ids s' `sublist_of` remaining_array_ids s;
  retires_left : ∀ array_id,
    array_id ∈ remaining_array_ids s →
    array_id ∈ remaining_array_ids s' ∨ retired targets s' array_id
}.

(** [same_queue s s']: the queue and the retired names are the same. *)
Definition same_queue (s s' : State) : Prop :=
  remaining_array_ids s' = remaining_array_ids s
  ∧ completed_srcs s' = completed_srcs s
  ∧ failed_srcs s' = failed_srcs s.

(** [partitioned targets s]: the queue holds job ids of the catalogue,
    none twice; no name is both completed and failed; and a job of the
    catalogue is in the queue exactly when it is not retired. *)
Definition partitioned (targets : list string) (s : State) : Prop :=
  NoDup (remaining_array_ids s)
  ∧ (∀ array_id, array_id ∈ remaining_array_ids s →
                 1 ≤ array_id ≤ Z.of_nat (length targets))
  ∧ completed_srcs s ## failed_srcs s
  ∧ ∀ array_id, 1 ≤ array_id ≤ Z.of_nat (length targets) →
                (array_id ∈ remaining_array_ids s ↔ ¬ retired targets s array_id).

(** ** What a computation leaves behind

    [post J Q r]: the result [r] of a computation satisfies [J] when it
    returned and [Q] when it raised. *)
Definition post {A} (J : A → State → Prop) (Q : exn → State → Prop)
    (r : State * outcome A) : Prop :=
  match r with
  | (s', Return a) => J a s'
  | (s', Raise e) => Q e s'
  end.

(** ** Notices and submissions in a trace *)

Definition rate_limit_event (e : event) : bool :=
  match e with PrintRateLimit _ => true | _ => false end.

Definition notices (tr : list event) : nat :=
  length (filter rate_limit_event tr).

(** The job ids handed to [run_os_cmd], in order. *)
Definition launched (tr : list event) : list Z :=
  omap (λ e, match e with RunOsCmd _ array_id => Some array_id | _ => None end)
       tr.

(** ** Where an exception comes from

    [raise_site ... ids e s]: what an exception [e] that leaves the code
    working on the job ids [ids], in the state [s], tells of its origin.
    [IndexError] and [KeyError] come from the two lookups of a job's
    measurement sets; [TypeError] from the conflict test above the floor
    or from the handler of [OSError]; [CommandFailedError] from a
    submission that has just been made. The code below the closing report
    raises neither [ZeroDivisionError] nor a plain [Exception]. *)
Definition raise_site (targets : list string)
    (src_beam_map : gmap string (gset string)) (min_concurrency_limit : Z)
    (use_pbs : bool) (subprocess_call : Z → call_result) (ids : list Z)
    (e : exn) (s : State) : Prop :=
  match e with
  | IndexError =>
      ∃ array_id, array_id ∈ ids ∧ py_getitem targets (array_id - 1) = None
  | KeyError =>
      ∃ array_id comp_name,
        array_id ∈ ids
        ∧ py_getitem targets (array_id - 1) = Some comp_name
        ∧ src_beam_map !! comp_name = None
  | ValueError | OverflowError | OSErrorRaised => True
  | TypeError =>
      min_concurrency_limit < Z.of_nat (size (active_ids s))
      ∨ ∃ array_id, last (trace s) = Some (RunOsCmd use_pbs array_id)
                    ∧ subprocess_call array_id = OSError
  | CommandFailedError array_id =>
      last (trace s) = Some (RunOsCmd use_pbs array_id)
      ∧ array_id ∈ ids
      ∧ array_id ∈ active_ids s
      ∧ ∃ retcode, subprocess_call array_id = Retcode retcode ∧ retcode ≠ 0
  | ZeroDivisionError | Exception _ => False
  end.

(** * Properties *)

(** ** Running monadic code *)

Ltac py_unfold :=
  unfold run_os_cmd, remove_remaining, set_and_list, lookup_target,
    lookup_beams, append_ms, emit in *;
  unfold bind, ret, raise, get, modify in *.

Lemma bind_run {A B} (m : Py A) (k : A → Py B) s :
  bind m k s = match m s with
               | (s', Return a) => k a s'
               | (s', Raise e) => (s', Raise e)
               end.
Proof. reflexivity. Qed.

(** A property of states that every iteration maintains, whatever its
    outcome, holds after the loop, whatever its outcome. *)
Lemma for_in_invariant {A L} (I : State → Prop) (body : A → L → Py L) l :
  (∀ x loc s, x ∈ l → I s → I (body x loc s).1) →
  ∀ loc s, I s → I (for_in l body loc s).1.
Proof.
  induction l as [|x l IH]; intros Hbody loc s Hs; [done|].
  simpl. rewrite bind_run.
  pose proof (Hbody x loc s (list_elem_of_here _ _) Hs) as Hx.
  destruct (body x loc s) as [s' [loc'|e]]; [|done].
  apply IH; [|done]. intros y ? ? Hy. apply Hbody. by right.
Qed.

(** The same for a relation between the state before and after. *)
Lemma for_in_preorder {A L} (R : relation State) `{!PreOrder R}
    (body : A → L → Py L) l :
  (∀ x loc s, x ∈ l → R s (body x loc s).1) →
  ∀ loc s, R s (for_in l body loc s).1.
Proof.
  intros Hbody loc s.
  apply (for_in_invariant (R s)); [|done].
  intros x loc' s' Hx Hs'. etrans; [done|]. by apply Hbody.
Qed.

Lemma bind_preorder {A B} (R : relation State) `{!PreOrder R}
    (m : Py A) (k : A → Py B) s :
  R s (m s).1 → (∀ a s', R s' (k a s').1) → R s (bind m k s).1.
Proof.
  intros Hm Hk. rewrite bind_run.
  destruct (m s) as [s' [a|e]]; simpl in *; [|done].
  etrans; [done|apply Hk].
Qed.

(** ** What each phase prints *)

#[local] Instance emitted_preorder P : PreOrder (emitted P).
Proof.
  split.
  - intros s. exists []. by rewrite app_nil_r.
  - intros s1 s2 s3 (evs1 & H1 & ?) (evs2 & H2 & ?). exists (evs1 ++ evs2).
    split; [|by apply Forall_app]. by rewrite H2, H1, (assoc_L (++)).
Qed.

Lemma emitted_prefix P s s' : emitted P s s' → trace s `prefix_of` trace s'.
Proof. intros (evs & ? & _). by exists evs. Qed.

Ltac solve_emitted :=
  simpl;
  first [ reflexivity
        | by exists []; simpl; rewrite app_nil_r
        | eexists; split;
          [ rewrite <-?(assoc_L (++)); reflexivity
          | by repeat constructor ] ].

(** ** The admission phase only adds *)

#[local] Instance grows_preorder : PreOrder grows.
Proof.
  split.
  - intros s. by split.
  - intros s1 s2 s3 [] []. split; try congruence; by etrans.
Qed.

Section admission.
Context (targets : list string) (src_beam_map : gmap string (gset string)).
Context (concurrency_limit min_concurrency_limit : Z) (use_pbs : bool).
Context (subprocess_call : Z → call_result).

Local Abbreviation scan_start' := (scan_start targets src_beam_map concurrency_limit
  min_concurrency_limit use_pbs subprocess_call).
Local Abbreviation admission_phase' := (admission_phase targets src_beam_map
  concurrency_limit min_concurrency_limit use_pbs subprocess_call).
Local Abbreviation passed_over' := (passed_over targets).
Local Abbreviation admitted' := (admitted use_pbs).

Lemma scan_start_grows array_id rate_limited s :
  grows s (scan_start' array_id rate_limited s).1.
Proof.
  unfold scan_start'. py_unfold.
  repeat (case_match || case_bool_decide); simplify_eq/=;
    try reflexivity;
    (split; simpl; try done; try set_solver;
     first [by repeat apply prefix_app_r | solve_emitted]).
Qed.

Lemma admission_phase_grows s : grows s (admission_phase' s).1.
Proof.
  unfold admission_phase'. rewrite bind_run. simpl.
  apply for_in_preorder; [apply _|].
  intros. apply scan_start_grows.
Qed.

Lemma for_in_app {A L} (body : A → L → Py L) l1 l2 loc s :
  for_in (l1 ++ l2) body loc s
  = (loc' <- for_in l1 body loc ;; for_in l2 body loc') s.
Proof.
  revert loc s. induction l1 as [|x l1 IH]; intros loc s; [done|].
  simpl. rewrite !bind_run. destruct (body x loc s) as [s' [loc'|e]]; [|done].
  by rewrite IH.
Qed.

Lemma scan_start_passed_over array_id rate_limited s :
  passed_over' s array_id →
  scan_start' array_id rate_limited s = (s, Return rate_limited).
Proof.
  intros [Hin|(comp_name & Hname & Hdone)]; unfold scan_start'; py_unfold.
  - by rewrite bool_decide_true.
  - case_bool_decide; [done|]. rewrite Hname. by rewrite bool_decide_true.
Qed.

Lemma for_in_passed_over l rate_limited s :
  Forall (passed_over' s) l →
  for_in l scan_start' rate_limited s = (s, Return rate_limited).
Proof.
  induction 1 as [|x l Hx _ IH]; [done|].
  simpl. rewrite bind_run, scan_start_passed_over by done. apply IH.
Qed.

Lemma scan_start_at_floor array_id comp_name tgt_ms rate_limited s :
  array_id ∉ active_ids s →
  py_getitem targets (array_id - 1) = Some comp_name →
  comp_name ∉ completed_srcs s →
  src_beam_map !! comp_name = Some tgt_ms →
  Z.of_nat (size (active_ids s)) ≤ min_concurrency_limit →
  Z.of_nat (size (active_ids s)) < concurrency_limit →
  (scan_start' array_id rate_limited s).1 = admitted' array_id tgt_ms s.
Proof.
  intros Hid Hname Hdone Hms Hfloor Hcap. unfold scan_start', admitted'. py_unfold.
  rewrite bool_decide_false, Hname, bool_decide_false, Hms by done.
  rewrite bool_decide_false by lia. rewrite bool_decide_true by done. simpl.
  rewrite <-(assoc_L (++)). simpl.
  destruct (subprocess_call array_id) as [retcode|]; [|done]. by case_bool_decide.
Qed.

(** Above the floor the conflict test is evaluated, for any job that is
    neither running nor completed, and it raises. *)
Lemma scan_start_above_floor array_id comp_name tgt_ms rate_limited s :
  array_id ∉ active_ids s →
  py_getitem targets (array_id - 1) = Some comp_name →
  comp_name ∉ completed_srcs s →
  src_beam_map !! comp_name = Some tgt_ms →
  min_concurrency_limit < Z.of_nat (size (active_ids s)) →
  scan_start' array_id rate_limited s = (s, Raise TypeError).
Proof.
  intros Hid Hname Hdone Hms Hfloor. unfold scan_start'. py_unfold.
  rewrite bool_decide_false, Hname, bool_decide_false, Hms by done.
  by rewrite bool_decide_true.
Qed.

End admission.

(** C10. The admission phase (the second loop of [job_loop]) leaves the
    remaining queue, the completed names and the failed names as they
    were, whatever its outcome; the active ids and the held measurement
    sets only gain members. *)
Theorem admission_phase_frame targets src_beam_map concurrency_limit
    min_concurrency_limit use_pbs subprocess_call s :
  let s' := (admission_phase targets src_beam_map concurrency_limit
               min_concurrency_limit use_pbs subprocess_call s).1 in
  remaining_array_ids s' = remaining_array_ids s
  ∧ completed_srcs s' = completed_srcs s
  ∧ failed_srcs s' = failed_srcs s
  ∧ active_ids s ⊆ active_ids s'
  ∧ active_ms s `prefix_of` active_ms s'.
Proof.
  intros s'.
  by destruct (admission_phase_grows targets src_beam_map concurrency_limit
                 min_concurrency_limit use_pbs subprocess_call s).
Qed.

(** C2. At or below the floor and below the ceiling, the admission phase
    admits the next job of the queue that is neither running nor
    completed, whether or not its measurement sets are already held: its
    id joins [active_ids], its measurement sets are appended to
    [active_ms] and its command is handed to [run_os_cmd]. *)
Theorem admission_at_floor targets src_beam_map concurrency_limit
    min_concurrency_limit use_pbs subprocess_call
    s before array_id after comp_name tgt_ms :
  remaining_array_ids s = before ++ array_id :: after →
  Forall (passed_over targets s) before →
  array_id ∉ active_ids s →
  py_getitem targets (array_id - 1) = Some comp_name →
  comp_name ∉ completed_srcs s →
  src_beam_map !! comp_name = Some tgt_ms →
  Z.of_nat (size (active_ids s)) ≤ min_concurrency_limit →
  Z.of_nat (size (active_ids s)) < concurrency_limit →
  let s' := (admission_phase targets src_beam_map concurrency_limit
               min_concurrency_limit use_pbs subprocess_call s).1 in
  array_id ∈ active_ids s'
  ∧ (active_ms s ++ elements tgt_ms) `prefix_of` active_ms s'
  ∧ (trace s ++ [PrintStarting array_id (S (size (active_ids s)));
                 RunOsCmd use_pbs array_id]) `prefix_of` trace s'.
Proof.
  intros Hq Hbefore Hid Hname Hdone Hms Hfloor Hcap s'.
  assert (grows (admitted use_pbs array_id tgt_ms s) s') as [_ _ _ Hids Hheld Htr].
  { subst s'. unfold admission_phase. rewrite bind_run. simpl.
    rewrite Hq, for_in_app, bind_run, for_in_passed_over by done.
    simpl. rewrite bind_run.
    pose proof (scan_start_at_floor targets src_beam_map concurrency_limit
      min_concurrency_limit use_pbs subprocess_call array_id comp_name tgt_ms
      false s Hid Hname Hdone Hms Hfloor Hcap) as Hadm.
    destruct (scan_start _ _ _ _ _ _ array_id false s) as [s1 [rl|e]];
      simpl in Hadm; subst s1; [|done].
    apply for_in_preorder; [apply _|]. intros. apply scan_start_grows. }
  apply emitted_prefix in Htr.
  simpl in *. rewrite size_union, size_singleton in Htr by set_solver.
  split_and!; [set_solver|done|done].
Qed.

Lemma admission_at_floor_witness :
  let s := mkState {[1]} ["m1"] [1; 2] ∅ ∅ [] in
  let src_beam_map : gmap string (gset string) :=
    <["A" := {["m1"]}]> (<["B" := {["m1"]}]> ∅) in
  let s' := (admission_phase ["A"; "B"] src_beam_map 3 1 false
               (λ _, Retcode 0) s).1 in
  2 ∈ active_ids s'
  ∧ (["m1"] ++ elements ({["m1"]} : gset string)) `prefix_of` active_ms s'
  ∧ ([] ++ [PrintStarting 2 2; RunOsCmd false 2]) `prefix_of` trace s'.
Proof.
  intros s src_beam_map.
  apply (admission_at_floor ["A"; "B"] src_beam_map 3 1 false (λ _, Retcode 0)
           s [1] 2 [] "B" {["m1"]}).
  - reflexivity.
  - constructor; [left; compute_done|constructor].
  - compute_done.
  - reflexivity.
  - compute_done.
  - reflexivity.
  - vm_compute. discriminate.
  - reflexivity.
Defined.

(** ** The catalogue *)

Lemma read_image_params_elem_of rows targets name :
  name ∈ foldl add_target targets rows → name ∈ targets ∨ name ∈ rows.*1.
Proof.
  revert targets.
  induction rows as [|row rows IH]; intros targets; simpl; [by left|].
  intros [Hacc|Hrows]%IH; [|right; by right].
  unfold add_target in Hacc. case_bool_decide; [by left|].
  apply elem_of_app in Hacc as [?|Heq]; [by left|].
  apply list_elem_of_singleton in Heq as ->. right. by left.
Qed.

Lemma build_map_lookup rows (src_beam_map : gmap string (gset string)) name :
  name ∈ rows.*1
  ∨ (∃ beams, src_beam_map !! name = Some beams ∧ beams ≠ ∅) →
  ∃ beams, foldl add_beam src_beam_map rows !! name = Some beams ∧ beams ≠ ∅.
Proof.
  revert src_beam_map.
  induction rows as [|row rows IH]; intros src_beam_map Hname; simpl.
  { destruct Hname as [?%elem_of_nil|?]; done. }
  apply IH. unfold add_beam. destruct (decide (name = row.1)) as [->|Hne].
  - right. rewrite lookup_insert_eq. eexists. split; [done|]. set_solver.
  - destruct Hname as [Hin|Hm].
    + left. simpl in Hin. by apply elem_of_cons in Hin as [?|?].
    + right. by rewrite lookup_insert_ne.
Qed.

(** Every job id of a catalogue, [1] to [len(targets)], has measurement
    sets, at least one. *)
Lemma catalogue_job_ms image_params array_id :
  1 ≤ array_id ≤ Z.of_nat (length (read_image_params image_params)) →
  ∃ tgt_ms,
    job_ms (read_image_params image_params) (build_map image_params) array_id
    = Some tgt_ms
    ∧ tgt_ms ≠ ∅.
Proof.
  intros Hid. unfold job_ms, py_getitem. rewrite bool_decide_true by lia.
  destruct (lookup_lt_is_Some_2 (read_image_params image_params)
              (Z.to_nat (array_id - 1))) as [comp_name Hname]; [lia|].
  rewrite Hname. simpl. apply build_map_lookup. left.
  apply list_elem_of_lookup_2 in Hname.
  by apply read_image_params_elem_of in Hname as [?%elem_of_nil|?].
Qed.

(** ** Pre-activation *)

Section register_active.
Context (targets : list string) (src_beam_map : gmap string (gset string)).

Local Abbreviation job_ms' := (job_ms targets src_beam_map).
Local Abbreviation held_by' := (held_by targets src_beam_map).
Local Abbreviation register_one' := (register_one targets src_beam_map).

Lemma job_ms_Some array_id tgt_ms :
  job_ms' array_id = Some tgt_ms ↔
  ∃ comp_name, py_getitem targets (array_id - 1) = Some comp_name
               ∧ src_beam_map !! comp_name = Some tgt_ms.
Proof.
  unfold job_ms. destruct (py_getitem _ _) as [comp_name|]; simpl.
  - split; [by exists comp_name|]. by intros (? & [= <-] & ?).
  - split; [done|]. by intros (? & ? & ?).
Qed.

Lemma register_one_run array_id tgt_ms s :
  job_ms' array_id = Some tgt_ms →
  register_one' array_id tt s
  = (mkState ({[array_id]} ∪ active_ids s) (active_ms s ++ elements tgt_ms)
       (remaining_array_ids s) (completed_srcs s) (failed_srcs s)
       (trace s ++ [PrintRegistered array_id
                      (size ({[array_id]} ∪ active_ids s))]),
     Return tt).
Proof.
  intros (comp_name & Hname & Hms)%job_ms_Some.
  unfold register_one. py_unfold. by rewrite Hname, Hms.
Qed.

(** The loop of [register_active] checks nothing but the two lookups: it
    takes neither limit, and goes through whenever every job has
    measurement sets. *)
Lemma register_loop jobs s :
  Forall (λ array_id, is_Some (job_ms' array_id)) jobs →
  ∃ s', for_in jobs register_one' tt s = (s', Return tt)
        ∧ active_ids s' = list_to_set jobs ∪ active_ids s
        ∧ active_ms s' = active_ms s ++ held_by' jobs
        ∧ remaining_array_ids s' = remaining_array_ids s
        ∧ completed_srcs s' = completed_srcs s
        ∧ failed_srcs s' = failed_srcs s.
Proof.
  intros Hjobs. revert s.
  induction Hjobs as [|array_id jobs [tgt_ms Hms] _ IH]; intros s.
  { exists s. simpl. split_and!; try done; [set_solver|].
    by rewrite app_nil_r. }
  simpl. rewrite bind_run, (register_one_run _ _ _ Hms).
  destruct (IH (mkState ({[array_id]} ∪ active_ids s)
                  (active_ms s ++ elements tgt_ms) (remaining_array_ids s)
                  (completed_srcs s) (failed_srcs s)
                  (trace s ++ [PrintRegistered array_id
                                 (size ({[array_id]} ∪ active_ids s))])))
    as (s' & -> & Hids & Hheld & ? & ? & ?); simpl in *.
  exists s'. split_and!; try done.
  - rewrite Hids. set_solver.
  - rewrite Hheld. unfold held_by.
    rewrite Hms. simpl. by rewrite (assoc_L (++)).
Qed.

Lemma length_held_by jobs :
  length (held_by' jobs)
  = sum_list_with (λ array_id, size (default ∅ (job_ms' array_id))) jobs.
Proof.
  unfold held_by. induction jobs as [|array_id jobs IH]; [done|].
  rewrite bind_cons, length_app, IH. done.
Qed.

End register_active.

(** C9. Pre-activating [n] jobs whose measurement sets are non-empty and
    pairwise disjoint, from the state [produce_all_cutouts] starts with,
    returns [n], leaves [n] active ids and as many held measurement sets
    as the jobs have together. Neither limit is an argument of
    [register_active]: the only checks are the two lookups. *)
Theorem register_active_disjoint targets src_beam_map jobs :
  Forall (λ array_id, ∃ tgt_ms,
            job_ms targets src_beam_map array_id = Some tgt_ms ∧ tgt_ms ≠ ∅)
         jobs →
  (∀ i j id1 id2 ms1 ms2,
     i ≠ j → jobs !! i = Some id1 → jobs !! j = Some id2 →
     job_ms targets src_beam_map id1 = Some ms1 →
     job_ms targets src_beam_map id2 = Some ms2 → ms1 ## ms2) →
  ∃ s', register_active targets src_beam_map (Some jobs) (init_state targets)
        = (s', Return (length jobs))
        ∧ size (active_ids s') = length jobs
        ∧ length (active_ms s')
          = sum_list_with
              (λ array_id, size (default ∅ (job_ms targets src_beam_map array_id)))
              jobs.
Proof.
  intros Hms Hdisj.
  assert (NoDup jobs) as Hnodup.
  { apply NoDup_alt. intros i j array_id Hi Hj.
    destruct (decide (i = j)) as [|Hne]; [done|].
    apply list_elem_of_lookup_2 in Hi as Hin.
    rewrite Forall_forall in Hms. destruct (Hms _ Hin) as (tgt_ms & Hsome & Hne0).
    specialize (Hdisj i j array_id array_id tgt_ms tgt_ms Hne Hi Hj Hsome Hsome).
    destruct Hne0. set_solver. }
  destruct (register_loop targets src_beam_map jobs (init_state targets))
    as (s' & Hrun & Hids & Hheld & _).
  { eapply Forall_impl; [exact Hms|]. intros ? (? & -> & _). by eexists. }
  assert (size (active_ids s') = length jobs) as Hsize.
  { rewrite Hids. simpl. rewrite (right_id_L ∅ (∪)). by apply size_list_to_set. }
  exists s'. split_and!.
  - unfold register_active. destruct jobs as [|array_id jobs].
    + cbv [for_in ret] in Hrun. injection Hrun as <-. done.
    + rewrite bind_run, Hrun. py_unfold. by rewrite Hsize.
  - done.
  - rewrite Hheld. simpl. apply length_held_by.
Qed.

Lemma register_active_disjoint_witness :
  let src_beam_map : gmap string (gset string) :=
    <["A" := {["m1"]}]> (<["B" := {["m2"; "m3"]}]> ∅) in
  ∃ s', register_active ["A"; "B"] src_beam_map (Some [2; 1])
          (init_state ["A"; "B"]) = (s', Return 2%nat)
        ∧ size (active_ids s') = 2%nat
        ∧ length (active_ms s') = 3%nat.
Proof.
  intros src_beam_map.
  apply (register_active_disjoint ["A"; "B"] src_beam_map [2; 1]).
  - repeat constructor.
    + exists {["m2"; "m3"]}. split; [reflexivity|set_solver].
    + exists {["m1"]}. split; [reflexivity|set_solver].
  - intros [|[|i]] [|[|j]] id1 id2 ms1 ms2 Hne Hi Hj H1 H2;
      simplify_eq/=; try done.
    + change (Some ({["m2"; "m3"]} : gset string) = Some ms1) in H1.
      change (Some ({["m1"]} : gset string) = Some ms2) in H2.
      simplify_eq. set_solver.
    + change (Some ({["m1"]} : gset string) = Some ms1) in H1.
      change (Some ({["m2"; "m3"]} : gset string) = Some ms2) in H2.
      simplify_eq. set_solver.
Defined.

(** C1 (the code departs from it). Two jobs on the same measurement set,
    no floor, room for three: the first loop starts job 1 and then reaches
    the conflict test of line 176 for job 2 with one job active. The test
    is [tgt_ms & active_ms], a [set] and a [list]: the run ends there with
    [TypeError], job 2 neither started nor passed over. *)
Theorem conflict_test_raises :
  let src_beam_map : gmap string (gset string) :=
    <["A" := {["m1"]}]> (<["B" := {["m1"]}]> ∅) in
  let r := produce_all_cutouts ["A"; "B"] src_beam_map 30 3 0 false None 500
             (λ _ _, false) (λ _ _, false) (λ _, Retcode 0) (λ _, true)
             (init_state ["A"; "B"]) in
  r.2 = Raise TypeError
  ∧ elements (active_ids r.1) = [1]
  ∧ active_ms r.1 = ["m1"]
  ∧ remaining_array_ids r.1 = [1; 2]
  ∧ trace r.1 = [PrintProcessing 2; PrintLoop 1; PrintStarting 1 1;
                 RunOsCmd false 1].
Proof. vm_compute. done. Qed.

(** C8 (the code departs from it). With no targets and no pre-active
    jobs the loop is not entered, [i] stays [0], and the closing report
    divides by it: the run ends with [ZeroDivisionError], whatever the
    other arguments. *)
Theorem empty_catalog_raises src_beam_map delay concurrency_limit
    min_concurrency_limit use_pbs max_loops isfile_completed isfile_failed
    subprocess_call os_sleep :
  produce_all_cutouts [] src_beam_map delay concurrency_limit
    min_concurrency_limit use_pbs None max_loops isfile_completed
    isfile_failed subprocess_call os_sleep (init_state [])
  = (mkState ∅ [] [] ∅ ∅ [PrintProcessing 0], Raise ZeroDivisionError).
Proof.
  unfold produce_all_cutouts. rewrite !bind_run. simpl.
  by destruct (Z.to_nat max_loops).
Qed.

(** ** Releasing measurement sets *)

Lemma py_list_remove_perm {A} `{EqDecision A} (x : A) l l' :
  py_list_remove x l = Some l' → l ≡ₚ x :: l'.
Proof.
  revert l'. induction l as [|y l IH]; intros l' Hl; [done|].
  simpl in Hl. case_decide; simplify_eq; [done|].
  destruct (py_list_remove x l) as [r|]; simplify_eq.
  rewrite (IH r eq_refl). apply perm_swap.
Qed.

Lemma py_list_remove_elem_of {A} `{EqDecision A} (x : A) l :
  x ∈ l → is_Some (py_list_remove x l).
Proof.
  induction l as [|y l IH]; [by intros ?%elem_of_nil|].
  intros Hx. simpl. case_decide; [by eexists|].
  apply elem_of_cons in Hx as [->|Hx]; [done|].
  destruct (IH Hx) as [r ->]. by eexists.
Qed.

(** The loop of [mark_comp_done] goes through when the list holds what
    is to be removed, and removes exactly that. *)
Lemma release_loop (tgt : list string) s :
  tgt ⊆+ active_ms s →
  ∃ l, for_in tgt release_one tt s = (set_active_ms (λ _, l) s, Return tt)
       ∧ active_ms s ≡ₚ tgt ++ l.
Proof.
  revert s. induction tgt as [|ms tgt IH]; intros s Hsub.
  { exists (active_ms s). by destruct s. }
  apply submseteq_cons_l in Hsub as (k & Hk & Hsub).
  destruct (py_list_remove_elem_of ms (active_ms s)) as [l1 Hl1].
  { rewrite Hk. left. }
  pose proof (py_list_remove_perm _ _ _ Hl1) as Hperm.
  destruct (IH (set_active_ms (λ _, l1) s)) as (l & Hrun & Hl).
  { simpl. rewrite Hperm in Hk. by apply Permutation_cons_inv in Hk as ->. }
  exists l. split.
  - simpl. rewrite bind_run. unfold release_one at 1. py_unfold.
    rewrite Hl1. simpl. by rewrite Hrun.
  - rewrite Hperm. simpl in Hl. by rewrite Hl.
Qed.

Lemma mark_comp_done_run array_id tgt_ms s :
  array_id ∈ active_ids s →
  elements tgt_ms ⊆+ active_ms s →
  ∃ l, mark_comp_done array_id tgt_ms s
       = (mkState (active_ids s ∖ {[array_id]}) l (remaining_array_ids s)
            (completed_srcs s) (failed_srcs s) (trace s), Return tt)
       ∧ active_ms s ≡ₚ elements tgt_ms ++ l.
Proof.
  intros Hin Hsub. unfold mark_comp_done. py_unfold.
  rewrite bool_decide_true by done.
  destruct (release_loop (elements tgt_ms)
              (set_active_ids (λ a, a ∖ {[array_id]}) s) Hsub) as (l & -> & Hl).
  by exists l.
Qed.

(** ** The completion phase *)

#[local] Instance shrinks_preorder : PreOrder shrinks.
Proof.
  split.
  - intros s. by split.
  - intros s1 s2 s3 [] []. split; by etrans.
Qed.

Lemma release_one_shrinks ms u s : shrinks s (release_one ms u s).1.
Proof.
  unfold release_one. py_unfold.
  destruct (py_list_remove ms (active_ms s)) as [l|] eqn:Hl; [|done].
  split; simpl; [done| |solve_emitted].
  rewrite (py_list_remove_perm _ _ _ Hl). by apply submseteq_cons.
Qed.

Lemma mark_comp_done_shrinks array_id tgt_ms s :
  shrinks s (mark_comp_done array_id tgt_ms s).1.
Proof.
  unfold mark_comp_done.
  apply (bind_preorder shrinks); [reflexivity|]. intros s0 s1.
  apply (bind_preorder shrinks).
  - case_bool_decide; [|reflexivity].
    split; simpl; [set_solver|done|solve_emitted].
  - intros _ s2. apply for_in_preorder; [apply _|].
    intros. apply release_one_shrinks.
Qed.

Section completion.
Context (targets : list string) (src_beam_map : gmap string (gset string)).
Context (isfile_completed isfile_failed : Z → bool).

Local Abbreviation retire' := (retire src_beam_map).
Local Abbreviation scan_completed' :=
  (scan_completed targets src_beam_map isfile_completed isfile_failed).

(** What lines 146-153 (and 156-163) do to a job that is in the queue
    and, when it is active, has its measurement sets among the held
    ones. [s1] is the state once the measurement sets are released. *)
Lemma retire_run array_id comp_name done skipped add_src s :
  (∀ f s, remaining_array_ids (add_src f s) = remaining_array_ids s) →
  array_id ∈ remaining_array_ids s →
  (array_id ∈ active_ids s →
   ∃ tgt_ms, src_beam_map !! comp_name = Some tgt_ms
             ∧ elements tgt_ms ⊆+ active_ms s) →
  ∃ ids ms l,
    retire' array_id comp_name done skipped add_src s
    = (set_remaining (λ _, l)
         (add_src (λ srcs, {[comp_name]} ∪ srcs)
            (mkState ids ms (remaining_array_ids s) (completed_srcs s)
               (failed_srcs s)
               (trace s ++ [if bool_decide (array_id ∈ active_ids s)
                            then done else skipped]))),
       Return tt)
    ∧ py_list_remove array_id (remaining_array_ids s) = Some l
    ∧ (array_id ∈ active_ids s →
       ids = active_ids s ∖ {[array_id]}
       ∧ ∀ tgt_ms, src_beam_map !! comp_name = Some tgt_ms →
                   active_ms s ≡ₚ elements tgt_ms ++ ms)
    ∧ (array_id ∉ active_ids s → ids = active_ids s ∧ ms = active_ms s).
Proof.
  intros Hadd Hq Hheld.
  destruct (py_list_remove_elem_of _ _ Hq) as [l Hl].
  unfold retire. rewrite !bind_run. simpl.
  destruct (decide (array_id ∈ active_ids s)) as [Hin|Hout].
  - destruct (Hheld Hin) as (tgt_ms & Hms & Hsub).
    rewrite !bool_decide_true by done. py_unfold. rewrite Hms. simpl.
    destruct (mark_comp_done_run array_id tgt_ms
      (mkState (active_ids s) (active_ms s) (remaining_array_ids s)
         (completed_srcs s) (failed_srcs s) (trace s ++ [done])))
      as (ms & -> & Hperm); [done..|]. simpl.
    exists (active_ids s ∖ {[array_id]}), ms, l. split_and!.
    + rewrite Hadd. simpl. by rewrite Hl.
    + done.
    + intros _. split; [done|]. by intros ? [= <-].
    + done.
  - rewrite !bool_decide_false by done. py_unfold. simpl.
    exists (active_ids s), (active_ms s), l. split_and!; try done.
    rewrite Hadd. simpl. by rewrite Hl.
Qed.

Lemma retire_shrinks array_id comp_name done skipped add_src s :
  completion_event done → completion_event skipped →
  (∀ f s, active_ids (add_src f s) = active_ids s
          ∧ active_ms (add_src f s) = active_ms s
          ∧ trace (add_src f s) = trace s) →
  shrinks s (retire' array_id comp_name done skipped add_src s).1.
Proof.
  intros Hdone Hskipped Hadd. unfold retire.
  apply (bind_preorder shrinks); [reflexivity|]. intros s0 s1.
  apply (bind_preorder shrinks); [|intros _ s2; apply (bind_preorder shrinks)].
  - case_bool_decide.
    + apply (bind_preorder shrinks).
      { split; simpl; [done..|]. exists [done]. by repeat constructor. }
      intros _ s2. apply (bind_preorder shrinks).
      { unfold lookup_beams. destruct (_ !! _); reflexivity. }
      intros. apply mark_comp_done_shrinks.
    + split; simpl; [done..|]. exists [skipped]. by repeat constructor.
  - simpl. destruct (Hadd (λ srcs, {[comp_name]} ∪ srcs) s2) as (Hids & Hms & Htr).
    split; [by rewrite Hids|by rewrite Hms|]. exists []. by rewrite app_nil_r.
  - intros _ s3. unfold remove_remaining. py_unfold.
    destruct (py_list_remove _ _); [|reflexivity].
    split; simpl; [done..|solve_emitted].
Qed.

Lemma scan_completed_shrinks array_id u s :
  shrinks s (scan_completed' array_id u s).1.
Proof.
  unfold scan_completed.
  apply (bind_preorder shrinks).
  { unfold lookup_target. destruct (py_getitem _ _); reflexivity. }
  intros comp_name s1. apply (bind_preorder shrinks); [reflexivity|]. intros s2 s3.
  repeat case_match; try reflexivity; by apply retire_shrinks.
Qed.

Lemma completion_phase_shrinks s :
  shrinks s (completion_phase targets src_beam_map isfile_completed
               isfile_failed s).1.
Proof.
  unfold completion_phase. rewrite bind_run. simpl.
  apply for_in_preorder; [apply _|]. intros. apply scan_completed_shrinks.
Qed.

End completion.

(** C6. In every cycle the completions come first. The trace of a call
    of [job_loop] is a run of completion events followed by a run of
    admission events; up to the end of the first run [active_ids] and
    [active_ms] only lose members, and from there on they only gain
    members. So what a completion releases is there for a later admission
    of the same cycle: in the second part, with room for one job, job 2
    starts on the measurement set job 1 gave up in that cycle, and does
    not start while the marker of job 1 is missing. *)
Theorem completions_before_admissions :
  (∀ targets src_beam_map concurrency_limit min_concurrency_limit use_pbs
     isfile_completed isfile_failed subprocess_call s,
     let s1 := (completion_phase targets src_beam_map isfile_completed
                  isfile_failed s).1 in
     let s2 := (job_loop targets src_beam_map concurrency_limit
                  min_concurrency_limit use_pbs isfile_completed
                  isfile_failed subprocess_call s).1 in
     ∃ released started,
       trace s1 = trace s ++ released ∧ Forall completion_event released
       ∧ trace s2 = trace s1 ++ started ∧ Forall admission_event started
       ∧ active_ids s1 ⊆ active_ids s ∧ active_ms s1 ⊆+ active_ms s
       ∧ active_ids s1 ⊆ active_ids s2
       ∧ active_ms s1 `prefix_of` active_ms s2)
  ∧ (let src_beam_map : gmap string (gset string) :=
       <["A" := {["m1"]}]> (<["B" := {["m1"]}]> ∅) in
     let s := mkState {[1]} ["m1"] [1; 2] ∅ ∅ [] in
     let r := job_loop ["A"; "B"] src_beam_map 1 1 false
                (λ array_id, bool_decide (array_id = 1)) (λ _, false)
                (λ _, Retcode 0) s in
     let r' := job_loop ["A"; "B"] src_beam_map 1 1 false
                 (λ _, false) (λ _, false) (λ _, Retcode 0) s in
     (r.2 = Return 1%nat
      ∧ elements (active_ids r.1) = [2] ∧ active_ms r.1 = ["m1"]
      ∧ trace r.1 = [PrintCompleted 1; PrintStarting 2 1; RunOsCmd false 2])
     ∧ (r'.2 = Return 1%nat
        ∧ elements (active_ids r'.1) = [1] ∧ active_ms r'.1 = ["m1"]
        ∧ trace r'.1 = [PrintRateLimit 1])).
Proof.
  split; [|by vm_compute].
  intros targets src_beam_map concurrency_limit min_concurrency_limit use_pbs
    isfile_completed isfile_failed subprocess_call s s1 s2.
  destruct (completion_phase_shrinks targets src_beam_map isfile_completed
              isfile_failed s) as [Hids Hms (released & Hrel & ?)].
  fold s1 in Hids, Hms, Hrel.
  assert (grows s1 s2) as [_ _ _ Hids' Hms' (started & Hst & ?)].
  { subst s1 s2. unfold job_loop. rewrite bind_run.
    destruct (completion_phase _ _ _ _ s) as [s1 [[]|e]]; simpl; [|done].
    apply (bind_preorder grows); [apply admission_phase_grows|].
    intros ? s3. reflexivity. }
  by exists released, started.
Qed.

(** ** The ceiling *)

Lemma shrinks_within M s s' : shrinks s s' → within M s → within M s'.
Proof.
  intros [Hids _ _]. unfold within. apply subseteq_size in Hids. lia.
Qed.

Section ceiling.
Context (targets : list string) (src_beam_map : gmap string (gset string)).
Context (delay concurrency_limit min_concurrency_limit : Z) (use_pbs : bool).
Context (pre_active_jobs : option (list Z)) (max_loops : Z).
Context (isfile_completed isfile_failed : Z → Z → bool).
Context (subprocess_call : Z → call_result).
Context (os_sleep : Z → bool).

Local Abbreviation scan_start' := (scan_start targets src_beam_map
  concurrency_limit min_concurrency_limit use_pbs subprocess_call).
Local Abbreviation cycle' := (cycle targets src_beam_map concurrency_limit
  min_concurrency_limit use_pbs isfile_completed isfile_failed subprocess_call).
Local Abbreviation observation' := (observation targets src_beam_map delay
  concurrency_limit min_concurrency_limit use_pbs pre_active_jobs max_loops
  isfile_completed isfile_failed subprocess_call os_sleep).

Lemma scan_start_within M array_id rate_limited s :
  concurrency_limit ≤ M →
  within M s → within M (scan_start' array_id rate_limited s).1.
Proof.
  intros HM Hs. unfold scan_start, within in *. py_unfold.
  repeat (case_match || case_bool_decide); simplify_eq/=; try done.
  all: rewrite size_union, size_singleton by set_solver; lia.
Qed.

Lemma job_loop_within M isc isf s :
  concurrency_limit ≤ M →
  within M s →
  within M (job_loop targets src_beam_map concurrency_limit
              min_concurrency_limit use_pbs isc isf subprocess_call s).1.
Proof.
  intros HM Hs. unfold job_loop. rewrite bind_run.
  pose proof (completion_phase_shrinks targets src_beam_map isc isf s) as Hsh.
  apply (shrinks_within M) in Hsh; [|done].
  destruct (completion_phase _ _ _ _ s) as [s1 [[]|e]]; simpl in *; [|done].
  rewrite bind_run.
  assert (within M (admission_phase targets src_beam_map concurrency_limit
            min_concurrency_limit use_pbs subprocess_call s1).1) as Hadm.
  { unfold admission_phase. rewrite bind_run. simpl.
    apply for_in_invariant; [|done]. intros. by apply scan_start_within. }
  by destruct (admission_phase _ _ _ _ _ _ s1) as [s2 [rl|e]].
Qed.

(** A property that [cycle] maintains holds at every observation point
    once it holds at the first. *)
Lemma observation_invariant (I : State → Prop) :
  (∀ i s, I s → I (cycle' i s).1) →
  ∀ k s0 s, observation' 0 = Some s0 → I s0 → observation' k = Some s → I s.
Proof.
  intros Hcycle k s0. induction k as [|k IH]; intros s H0 Hs0 Hk.
  { by simplify_eq. }
  simpl in Hk. destruct (observation _ _ _ _ _ _ _ _ _ _ _ _ k)
    as [s1|] eqn:Hs1; [|done].
  case_match; [|done].
  specialize (Hcycle (Z.of_nat k + 1) s1 (IH s1 H0 Hs0 eq_refl)).
  by destruct (cycle _ _ _ _ _ _ _ _ _ s1) as [s2 [n|e]];
    simplify_eq/=.
Qed.

Lemma cycle_within M i s :
  concurrency_limit ≤ M → within M s → within M (cycle' i s).1.
Proof.
  intros HM Hs. unfold cycle. rewrite bind_run. simpl.
  by apply job_loop_within.
Qed.

End ceiling.

(** C3, as the code has it. Pre-activation checks no limit, so the bound
    at an observation point is the larger of [concurrency_limit] and the
    number of ids active once pre-activation is over: no cycle takes the
    number of active jobs above that. *)
Theorem active_within_limit targets src_beam_map delay concurrency_limit
    min_concurrency_limit use_pbs pre_active_jobs max_loops
    isfile_completed isfile_failed subprocess_call os_sleep k s0 s :
  observation targets src_beam_map delay concurrency_limit
    min_concurrency_limit use_pbs pre_active_jobs max_loops
    isfile_completed isfile_failed subprocess_call os_sleep 0 = Some s0 →
  observation targets src_beam_map delay concurrency_limit
    min_concurrency_limit use_pbs pre_active_jobs max_loops
    isfile_completed isfile_failed subprocess_call os_sleep k = Some s →
  Z.of_nat (size (active_ids s))
  ≤ Z.max concurrency_limit (Z.of_nat (size (active_ids s0))).
Proof.
  intros H0 Hk.
  eapply (observation_invariant _ _ _ _ _ _ _ _ _ _ _ _
            (within (Z.max concurrency_limit (Z.of_nat (size (active_ids s0))))));
    [|exact H0| |exact Hk].
  - intros i s1. apply cycle_within. lia.
  - unfold within. lia.
Qed.

Lemma active_within_limit_witness :
  let src_beam_map : gmap string (gset string) :=
    <["A" := {["m1"]}]> (<["B" := {["m1"]}]> (<["C" := {["m2"]}]> ∅)) in
  ∃ s0 s,
    observation ["A"; "B"; "C"] src_beam_map 30 2 2 false (Some [3]) 500
      (λ _ _, false) (λ _ _, false) (λ _, Retcode 0) (λ _, true) 0 = Some s0
    ∧ observation ["A"; "B"; "C"] src_beam_map 30 2 2 false (Some [3]) 500
        (λ _ _, false) (λ _ _, false) (λ _, Retcode 0) (λ _, true) 1 = Some s
    ∧ Z.of_nat (size (active_ids s)) ≤ Z.max 2 (Z.of_nat (size (active_ids s0))).
Proof.
  intros src_beam_map. eexists _, _.
  split; [vm_compute; reflexivity|].
  split; [vm_compute; reflexivity|].
  apply (active_within_limit ["A"; "B"; "C"] src_beam_map 30 2 2 false
           (Some [3]) 500 (λ _ _, false) (λ _ _, false) (λ _, Retcode 0) (λ _, true) 1);
    vm_compute; reflexivity.
Defined.

(** Pre-activating two jobs under a ceiling of one leaves two active. *)
Lemma preactivation_above_limit :
  let src_beam_map : gmap string (gset string) :=
    <["A" := {["m1"]}]> (<["B" := {["m2"]}]> ∅) in
  ∃ s0,
    observation ["A"; "B"] src_beam_map 30 1 0 false (Some [1; 2]) 500
      (λ _ _, false) (λ _ _, false) (λ _, Retcode 0) (λ _, true) 0 = Some s0
    ∧ ¬ Z.of_nat (size (active_ids s0)) ≤ 1.
Proof.
  intros src_beam_map. eexists. split; [vm_compute; reflexivity|].
  vm_compute. intros H. by apply H.
Qed.

(** ** Held measurement sets and active jobs *)

#[local] Instance held_by_perm targets src_beam_map :
  Proper ((≡ₚ) ==> (≡ₚ)) (held_by targets src_beam_map).
Proof. intros l1 l2 Hl. unfold held_by. by rewrite Hl. Qed.

Section held.
Context (targets : list string) (src_beam_map : gmap string (gset string)).
Context (extra : list string).

Local Abbreviation job_ms' := (job_ms targets src_beam_map).
Local Abbreviation held_by' := (held_by targets src_beam_map).
Local Abbreviation held_with' := (held_with targets src_beam_map extra).

Lemma held_with_frame s s' :
  active_ids s' = active_ids s → active_ms s' = active_ms s →
  held_with' s → held_with' s'.
Proof. unfold held_with. by intros -> ->. Qed.

Lemma elements_split (ids : gset Z) array_id :
  array_id ∈ ids → elements ids ≡ₚ array_id :: elements (ids ∖ {[array_id]}).
Proof.
  intros Hin. rewrite (union_difference_singleton_L array_id ids Hin) at 1.
  apply elements_union_singleton. set_solver.
Qed.

Lemma held_with_split s array_id tgt_ms :
  held_with' s → array_id ∈ active_ids s → job_ms' array_id = Some tgt_ms →
  active_ms s
  ≡ₚ elements tgt_ms
     ++ held_by' (elements (active_ids s ∖ {[array_id]})) ++ extra.
Proof.
  intros [Hms _] Hin Htgt. rewrite Hms, (elements_split _ _ Hin).
  unfold held_by at 1. simpl. by rewrite Htgt, <-(assoc_L (++)).
Qed.

Lemma held_with_add s array_id tgt_ms s' :
  held_with' s → array_id ∉ active_ids s → job_ms' array_id = Some tgt_ms →
  active_ids s' = {[array_id]} ∪ active_ids s →
  active_ms s' = active_ms s ++ elements tgt_ms →
  held_with' s'.
Proof.
  intros [Hms Hsome] Hout Htgt Hids' Hms'. split.
  - rewrite Hms', Hids', (elements_union_singleton _ _ Hout), Hms.
    unfold held_by at 2. simpl. rewrite Htgt. simpl.
    rewrite (Permutation_app_comm (elements tgt_ms)), <-!(assoc_L (++)).
    apply Permutation_app; [done|apply Permutation_app_comm].
  - intros id. rewrite Hids'. intros [->%elem_of_singleton|?]%elem_of_union;
      [by eexists|by apply Hsome].
Qed.

Lemma held_with_remove s array_id tgt_ms s' :
  held_with' s → array_id ∈ active_ids s → job_ms' array_id = Some tgt_ms →
  active_ids s' = active_ids s ∖ {[array_id]} →
  active_ms s ≡ₚ elements tgt_ms ++ active_ms s' →
  held_with' s'.
Proof.
  intros Hs Hin Htgt Hids' Hms'. split.
  - rewrite Hids'. rewrite (held_with_split _ _ _ Hs Hin Htgt) in Hms'.
    by apply Permutation_app_inv_l in Hms'.
  - intros id. rewrite Hids'. intros [? _]%elem_of_difference.
    by apply Hs.
Qed.

Lemma retire_held_with array_id comp_name done skipped add_src s :
  (∀ f s, active_ids (add_src f s) = active_ids s
          ∧ active_ms (add_src f s) = active_ms s) →
  py_getitem targets (array_id - 1) = Some comp_name →
  held_with' s →
  held_with' (retire src_beam_map array_id comp_name done skipped add_src s).1.
Proof.
  intros Hadd Hname Hs. unfold retire. rewrite bind_run. simpl.
  assert (∀ s1, held_with' s1 →
    held_with' ((modify (add_src (λ srcs, {[comp_name]} ∪ srcs)) ;;;
                 remove_remaining array_id) s1).1) as Hrest.
  { intros s1 Hs1. py_unfold. simpl.
    destruct (Hadd (λ srcs, {[comp_name]} ∪ srcs) s1) as [Hids Hms].
    destruct (py_list_remove _ _); simpl; by eapply held_with_frame. }
  rewrite bind_run. case_bool_decide as Hin.
  - destruct (proj2 Hs _ Hin) as [tgt_ms Htgt].
    pose proof Htgt as (comp_name' & Hname' & Hms)%job_ms_Some.
    assert (comp_name' = comp_name) as -> by congruence.
    pose proof (held_with_split _ _ _ Hs Hin Htgt) as Hsplit.
    rewrite bind_run. simpl. unfold lookup_beams. rewrite Hms.
    rewrite bind_run. simpl.
    destruct (mark_comp_done_run array_id tgt_ms
      (mkState (active_ids s) (active_ms s) (remaining_array_ids s)
         (completed_srcs s) (failed_srcs s) (trace s ++ [done])))
      as (l & -> & Hl); [done| |].
    { simpl. rewrite Hsplit. by apply submseteq_inserts_r. }
    apply Hrest. by eapply (held_with_remove s array_id tgt_ms).
  - simpl. apply Hrest. by eapply held_with_frame.
Qed.

Lemma scan_completed_held_with isfile_completed isfile_failed array_id u s :
  held_with' s →
  held_with' (scan_completed targets src_beam_map isfile_completed
                isfile_failed array_id u s).1.
Proof.
  intros Hs. unfold scan_completed, lookup_target. rewrite bind_run.
  destruct (py_getitem targets (array_id - 1)) as [comp_name|] eqn:Hname;
    [|done].
  simpl. rewrite bind_run. simpl.
  repeat case_match; try done; by apply retire_held_with.
Qed.

Lemma scan_start_held_with concurrency_limit min_concurrency_limit use_pbs
    subprocess_call array_id rate_limited s :
  held_with' s →
  held_with' (scan_start targets src_beam_map concurrency_limit
                min_concurrency_limit use_pbs subprocess_call array_id
                rate_limited s).1.
Proof.
  intros Hs. unfold scan_start. py_unfold.
  repeat (case_match || case_bool_decide); simplify_eq/=; try done;
    try (by eapply held_with_frame).
  all: eapply (held_with_add _ array_id); [done|done| |done|done];
    apply job_ms_Some; eauto.
Qed.

Lemma job_loop_held_with concurrency_limit min_concurrency_limit use_pbs
    isfile_completed isfile_failed subprocess_call s :
  held_with' s →
  held_with' (job_loop targets src_beam_map concurrency_limit
                min_concurrency_limit use_pbs isfile_completed isfile_failed
                subprocess_call s).1.
Proof.
  intros Hs. unfold job_loop, completion_phase, admission_phase.
  rewrite !bind_run. simpl.
  pose proof (for_in_invariant held_with'
    (scan_completed targets src_beam_map isfile_completed isfile_failed)
    (remaining_array_ids s)
    (λ x loc s1 _, scan_completed_held_with _ _ x loc s1) tt s Hs) as H1.
  destruct (for_in _ _ tt s) as [s1 [[]|e]]; simpl in *; [|done].
  rewrite !bind_run. simpl.
  pose proof (for_in_invariant held_with'
    (scan_start targets src_beam_map concurrency_limit min_concurrency_limit
       use_pbs subprocess_call)
    (remaining_array_ids s1)
    (λ x loc s2 _, scan_start_held_with _ _ _ _ x loc s2) false s1 H1) as H2.
  by destruct (for_in _ _ false s1) as [s2 [rl|e]].
Qed.

End held.

(** C5, as the code has it. A job whose COMPLETED (or else FAILED)
    marker the first loop finds is retired: when it is active, its id
    leaves [active_ids] and [active_ms] loses one occurrence of each of its
    measurement sets, nothing else; when it is not, [active_ids] and
    [active_ms] stay as they are; either way the id is taken out of the
    queue and the name goes to [completed_srcs] (to [failed_srcs] for a
    FAILED marker). One occurrence of each measurement set is what a job
    registered once has contributed: where [active_ms] was the
    measurement sets of the active jobs put together, and [extra] besides,
    it is afterwards those of the jobs still active, and the same [extra].
    The job is one the loop can meet: in the queue, its name not yet
    retired, and, when active, holding its measurement sets. *)
Theorem marker_retires targets src_beam_map isfile_completed isfile_failed
    array_id comp_name s :
  py_getitem targets (array_id - 1) = Some comp_name →
  comp_name ∉ completed_srcs s →
  comp_name ∉ failed_srcs s →
  isfile_completed array_id || isfile_failed array_id →
  array_id ∈ remaining_array_ids s →
  (array_id ∈ active_ids s →
   ∃ tgt_ms, src_beam_map !! comp_name = Some tgt_ms
             ∧ ∀ ms, ms ∈ tgt_ms → ms ∈ active_ms s) →
  ∃ s', scan_completed targets src_beam_map isfile_completed isfile_failed
          array_id tt s = (s', Return tt)
        ∧ (array_id ∈ active_ids s →
           active_ids s' = active_ids s ∖ {[array_id]}
           ∧ ∀ tgt_ms, src_beam_map !! comp_name = Some tgt_ms →
                       active_ms s ≡ₚ elements tgt_ms ++ active_ms s')
        ∧ (array_id ∉ active_ids s →
           active_ids s' = active_ids s ∧ active_ms s' = active_ms s)
        ∧ (∀ extra, held_with targets src_beam_map extra s →
                    held_with targets src_beam_map extra s')
        ∧ py_list_remove array_id (remaining_array_ids s)
          = Some (remaining_array_ids s')
        ∧ (if isfile_completed array_id
           then completed_srcs s' = {[comp_name]} ∪ completed_srcs s
                ∧ failed_srcs s' = failed_srcs s
           else completed_srcs s' = completed_srcs s
                ∧ failed_srcs s' = {[comp_name]} ∪ failed_srcs s).
Proof.
  intros Hname Hdone Hfailed Hmarker Hq Hheld.
  assert (array_id ∈ active_ids s →
          ∃ tgt_ms, src_beam_map !! comp_name = Some tgt_ms
                    ∧ elements tgt_ms ⊆+ active_ms s) as Hsub.
  { intros (tgt_ms & ? & Hall)%Hheld. exists tgt_ms. split; [done|].
    apply NoDup_submseteq; [apply NoDup_elements|].
    intros ms ?%elem_of_elements. by apply Hall. }
  pose proof (λ extra, scan_completed_held_with targets src_beam_map extra
                         isfile_completed isfile_failed array_id tt s)
    as Hkept.
  unfold scan_completed in *. unfold lookup_target in *.
  rewrite Hname in *.
  rewrite bind_run in *. unfold ret at 1. unfold ret at 1 in Hkept.
  rewrite bind_run in *. unfold get at 1. unfold get at 1 in Hkept.
  rewrite !bool_decide_false in * by done. simpl in *.
  destruct (isfile_completed array_id); simpl in Hmarker.
  - destruct (retire_run src_beam_map array_id comp_name
                (PrintCompleted array_id) (PrintSkipCompleted array_id)
                set_completed s) as (ids & ms & l & Hrun & Hl & Hin & Hout);
      [done..|].
    rewrite Hrun in *.
    eexists. split; [done|]. simpl. by split_and!.
  - destruct (isfile_failed array_id); [|done].
    destruct (retire_run src_beam_map array_id comp_name
                (PrintFailed array_id) (PrintSkipFailed array_id)
                set_failed s) as (ids & ms & l & Hrun & Hl & Hin & Hout);
      [done..|].
    rewrite Hrun in *.
    eexists. split; [done|]. simpl. by split_and!.
Qed.

Lemma marker_retires_witness :
  let src_beam_map : gmap string (gset string) :=
    <["A" := {["m1"]}]> (<["B" := {["m1"; "m2"]}]> ∅) in
  let s := mkState {[1; 2]} ["m1"; "m2"; "m1"] [1; 2] ∅ ∅ [] in
  ∃ s', scan_completed ["A"; "B"] src_beam_map (λ _, false)
          (λ array_id, bool_decide (array_id = 2)) 2 tt s = (s', Return tt)
        ∧ (2 ∈ active_ids s →
           active_ids s' = active_ids s ∖ {[2]}
           ∧ ∀ tgt_ms, src_beam_map !! "B" = Some tgt_ms →
                       active_ms s ≡ₚ elements tgt_ms ++ active_ms s')
        ∧ (2 ∉ active_ids s →
           active_ids s' = active_ids s ∧ active_ms s' = active_ms s)
        ∧ (∀ extra, held_with ["A"; "B"] src_beam_map extra s →
                    held_with ["A"; "B"] src_beam_map extra s')
        ∧ py_list_remove 2 (remaining_array_ids s)
          = Some (remaining_array_ids s')
        ∧ (completed_srcs s' = completed_srcs s
           ∧ failed_srcs s' = {["B"]} ∪ failed_srcs s).
Proof.
  intros src_beam_map s.
  apply (marker_retires ["A"; "B"] src_beam_map (λ _, false)
           (λ array_id, bool_decide (array_id = 2)) 2 "B" s).
  - reflexivity.
  - compute_done.
  - compute_done.
  - reflexivity.
  - compute_done.
  - intros _. exists {["m1"; "m2"]}. split; [reflexivity|].
    intros ms Hms. assert (ms = "m1" ∨ ms = "m2") as [->| ->] by set_solver;
      compute_done.
Defined.

(** A job named twice in the pre-active list has put its measurement
    sets into [active_ms] twice, and is active once. Its COMPLETED marker
    takes them out once: the job is retired, no job is active, and one
    occurrence of what it contributed is still held. *)
Lemma registered_twice_released_once :
  let src_beam_map : gmap string (gset string) := <["A" := {["m1"]}]> ∅ in
  ∃ s0 s1,
    observation ["A"] src_beam_map 30 12 6 false (Some [1; 1]) 500
      (λ _ _, true) (λ _ _, false) (λ _, Retcode 0) (λ _, true) 0 = Some s0
    ∧ observation ["A"] src_beam_map 30 12 6 false (Some [1; 1]) 500
        (λ _ _, true) (λ _ _, false) (λ _, Retcode 0) (λ _, true) 1 = Some s1
    ∧ elements (active_ids s0) = [1]
    ∧ active_ms s0 = ["m1"; "m1"]
    ∧ elements (active_ids s1) = []
    ∧ active_ms s1 = ["m1"]
    ∧ remaining_array_ids s1 = []
    ∧ elements (completed_srcs s1) = ["A"].
Proof.
  intros src_beam_map. eexists _, _.
  split; [vm_compute; reflexivity|].
  split; [vm_compute; reflexivity|].
  vm_compute. done.
Qed.


(** *** Pre-activation and the first observation point *)

Section first_observation.
Context (targets : list string) (src_beam_map : gmap string (gset string)).
Context (delay concurrency_limit min_concurrency_limit : Z) (use_pbs : bool).
Context (pre_active_jobs : option (list Z)) (max_loops : Z).
Context (isfile_completed isfile_failed : Z → Z → bool).
Context (subprocess_call : Z → call_result).
Context (os_sleep : Z → bool).

Local Abbreviation job_ms' := (job_ms targets src_beam_map).
Local Abbreviation register_one' := (register_one targets src_beam_map).
Local Abbreviation observation' := (observation targets src_beam_map delay
  concurrency_limit min_concurrency_limit use_pbs pre_active_jobs max_loops
  isfile_completed isfile_failed subprocess_call os_sleep).

Lemma register_one_raises array_id s :
  job_ms' array_id = None →
  ∃ e, register_one' array_id tt s = (s, Raise e).
Proof.
  unfold job_ms, register_one. py_unfold.
  destruct (py_getitem _ _) as [comp_name|]; simpl; [|by eexists].
  intros ->. by eexists.
Qed.

Lemma register_loop_returns jobs s s' :
  for_in jobs register_one' tt s = (s', Return tt) →
  Forall (λ array_id, is_Some (job_ms' array_id)) jobs.
Proof.
  revert s. induction jobs as [|array_id jobs IH]; intros s Hrun; [done|].
  cbn [for_in] in Hrun. rewrite bind_run in Hrun.
  destruct (job_ms' array_id) as [tgt_ms|] eqn:Hms.
  - rewrite (register_one_run _ _ _ _ _ Hms) in Hrun.
    constructor; [by eexists|]. by eapply IH.
  - destruct (register_one_raises array_id s Hms) as [e He].
    by rewrite He in Hrun.
Qed.

Lemma pre_activation_held_exact s0 n :
  NoDup (default [] pre_active_jobs) →
  pre_activation targets src_beam_map pre_active_jobs (init_state targets)
  = (s0, Return n) →
  held_with targets src_beam_map [] s0.
Proof.
  intros Hnodup. unfold pre_activation. unfold bind at 1 2, get, emit, modify.
  simpl.
  assert (held_with targets src_beam_map []
            (mkState ∅ [] (Z.of_nat <$> seq 1 (length targets)) ∅ ∅
               [PrintProcessing (length (Z.of_nat <$> seq 1 (length targets)))]))
    as Hinit.
  { split; simpl; [by rewrite elements_empty|set_solver]. }
  unfold register_active.
  destruct pre_active_jobs as [[|array_id jobs]|]; try by intros [= <- _].
  rewrite bind_run.
  match goal with
  | |- context [for_in ?l ?body ?loc ?s] =>
      destruct (for_in l body loc s) as [s1 [[]|e]] eqn:Hrun; [|done]
  end.
  intros [= <- _].
  pose proof (register_loop_returns _ _ _ Hrun) as Hsome.
  match type of Hrun with
  | for_in _ _ _ ?s = _ =>
      destruct (register_loop targets src_beam_map (array_id :: jobs) s Hsome)
        as (s1' & Hrun' & Hids & Hms & _)
  end.
  rewrite Hrun in Hrun'. simplify_eq. simpl in *. split.
  - rewrite Hms, Hids, app_nil_r. simpl. rewrite (right_id_L ∅ (∪)).
    change ({[array_id]} ∪ list_to_set jobs : gset Z)
      with (list_to_set (array_id :: jobs) : gset Z).
    by rewrite (elements_list_to_set _ Hnodup).
  - intros id. rewrite Hids. rewrite Forall_forall in Hsome.
    intros Hin. apply Hsome. set_solver.
Qed.

(** A job registered twice leaves its measurement sets in [active_ms]
    once more than [active_ids] accounts for; nothing is ever missing. *)
Lemma register_one_held_with array_id u s :
  (∃ extra, held_with targets src_beam_map extra s) →
  ∃ extra, held_with targets src_beam_map extra (register_one' array_id u s).1.
Proof.
  intros [extra Hs].
  destruct (job_ms' array_id) as [tgt_ms|] eqn:Htgt.
  - destruct u. rewrite (register_one_run _ _ _ _ s Htgt). simpl.
    destruct (decide (array_id ∈ active_ids s)) as [Hin|Hout].
    + exists (extra ++ elements tgt_ms). destruct Hs as [Hms Hsome].
      replace ({[array_id]} ∪ active_ids s) with (active_ids s) by set_solver.
      split; simpl; [|done]. by rewrite Hms, (assoc_L (++)).
    + exists extra. by eapply (held_with_add _ _ _ s array_id tgt_ms).
  - destruct u. destruct (register_one_raises array_id s Htgt) as [e ->].
    by exists extra.
Qed.

Lemma pre_activation_held_with s :
  (∃ extra, held_with targets src_beam_map extra s) →
  ∃ extra, held_with targets src_beam_map extra
             (pre_activation targets src_beam_map pre_active_jobs s).1.
Proof.
  intros [extra Hs]. unfold pre_activation. unfold bind at 1 2, get, emit, modify.
  simpl. unfold register_active.
  assert (∃ extra, held_with targets src_beam_map extra
            (mkState (active_ids s) (active_ms s) (remaining_array_ids s)
               (completed_srcs s) (failed_srcs s)
               (trace s ++ [PrintProcessing (length (remaining_array_ids s))])))
    as Hs'.
  { exists extra. by eapply held_with_frame. }
  destruct pre_active_jobs as [[|array_id jobs]|]; try done.
  rewrite bind_run.
  match goal with
  | |- context [for_in ?l ?body ?u ?s1] =>
      pose proof (for_in_invariant
        (λ s2, ∃ extra, held_with targets src_beam_map extra s2) body l
        (λ x v s2 _, register_one_held_with x v s2) u s1 Hs') as Hloop;
      by destruct (for_in l body u s1) as [s2 [[]|e]]
  end.
Qed.

Lemma observation_first k s :
  observation' k = Some s → ∃ s0, observation' 0 = Some s0.
Proof.
  revert s. induction k as [|k IH]; intros s Hk; [by eexists|].
  simpl in Hk.
  destruct (observation _ _ _ _ _ _ _ _ _ _ _ _ k) as [s1|] eqn:Hs1;
    [|done].
  by eapply IH.
Qed.

Lemma cycle_held_with extra i s :
  held_with targets src_beam_map extra s →
  held_with targets src_beam_map extra
    (cycle targets src_beam_map concurrency_limit min_concurrency_limit
       use_pbs isfile_completed isfile_failed subprocess_call i s).1.
Proof.
  intros Hs. unfold cycle. rewrite bind_run. simpl.
  apply job_loop_held_with. by eapply held_with_frame.
Qed.

(** In every run, at every observation point and between any two
    iterations of the first loop of a cycle begun there, each active job
    has its measurement sets in [active_ms]: [mark_comp_done] finds what
    it removes. *)
Lemma active_jobs_hold k s ids_scanned array_id tgt_ms ms :
  observation' k = Some s →
  let s1 := (for_in ids_scanned
               (scan_completed targets src_beam_map
                  (isfile_completed (Z.of_nat k + 1))
                  (isfile_failed (Z.of_nat k + 1))) tt s).1 in
  array_id ∈ active_ids s1 →
  job_ms' array_id = Some tgt_ms →
  ms ∈ tgt_ms → ms ∈ active_ms s1.
Proof.
  intros Hk s1 Hin Htgt Hms.
  assert (∃ extra, held_with targets src_beam_map extra s) as [extra Hs].
  { destruct (observation_first _ _ Hk) as [s0 H0].
    eapply (observation_invariant _ _ _ _ _ _ _ _ _ _ _ _
              (λ s, ∃ extra, held_with targets src_beam_map extra s));
      [|exact H0| |exact Hk].
    - intros i s2 [extra Hs2]. exists extra. by apply cycle_held_with.
    - simpl in H0.
      pose proof (pre_activation_held_with (init_state targets)) as Hpre.
      destruct (pre_activation _ _ _ _) as [s0' [n|e]]; simplify_eq.
      apply Hpre. exists []. split; simpl; [by rewrite elements_empty|].
      set_solver. }
  assert (held_with targets src_beam_map extra s1) as Hs1.
  { apply for_in_invariant; [|done]. intros.
    by apply scan_completed_held_with. }
  rewrite (held_with_split _ _ _ _ _ _ Hs1 Hin Htgt).
  apply elem_of_app. left. by apply elem_of_elements.
Qed.

End first_observation.

(** C4, as the code has it. In a run whose pre-active list names no job
    twice, at every observation point [active_ms] is, up to order, the
    measurement sets of the active jobs put together, a measurement set
    counted once for each active job that has it. *)
Theorem held_matches_active targets src_beam_map delay concurrency_limit
    min_concurrency_limit use_pbs pre_active_jobs max_loops
    isfile_completed isfile_failed subprocess_call os_sleep k s :
  NoDup (default [] pre_active_jobs) →
  observation targets src_beam_map delay concurrency_limit
    min_concurrency_limit use_pbs pre_active_jobs max_loops
    isfile_completed isfile_failed subprocess_call os_sleep k = Some s →
  active_ms s ≡ₚ held_by targets src_beam_map (elements (active_ids s)).
Proof.
  intros Hnodup Hk.
  destruct (observation_first _ _ _ _ _ _ _ _ _ _ _ _ _ _ Hk) as [s0 H0].
  rewrite <-(app_nil_r (held_by _ _ _)).
  eapply (observation_invariant _ _ _ _ _ _ _ _ _ _ _ _
            (held_with targets src_beam_map [])); [|exact H0| |exact Hk].
  - intros i s1 Hs1. by apply cycle_held_with.
  - simpl in H0. destruct (pre_activation _ _ _ _) as [s0' [n|e]] eqn:Hpre;
      simplify_eq. by eapply pre_activation_held_exact.
Qed.

Lemma held_matches_active_witness :
  let src_beam_map : gmap string (gset string) :=
    <["A" := {["m1"]}]> (<["B" := {["m1"]}]> (<["C" := {["m2"]}]> ∅)) in
  ∃ s,
    observation ["A"; "B"; "C"] src_beam_map 30 3 2 false (Some [3]) 500
      (λ i array_id, bool_decide (2 ≤ i ∧ array_id = 3)) (λ _ _, false)
      (λ _, Retcode 0) (λ _, true) 2 = Some s
    ∧ active_ms s
      ≡ₚ held_by ["A"; "B"; "C"] src_beam_map (elements (active_ids s)).
Proof.
  intros src_beam_map. eexists.
  split; [vm_compute; reflexivity|].
  apply (held_matches_active ["A"; "B"; "C"] src_beam_map 30 3 2 false
           (Some [3]) 500 (λ i array_id, bool_decide (2 ≤ i ∧ array_id = 3))
           (λ _ _, false) (λ _, Retcode 0) (λ _, true) 2).
  - simpl. apply NoDup_singleton.
  - vm_compute. reflexivity.
Defined.

(** A job named twice in the pre-active list is active once and holds
    its measurement sets twice. *)
Lemma preactivation_twice :
  let src_beam_map : gmap string (gset string) := <["A" := {["m1"]}]> ∅ in
  ∃ s0,
    observation ["A"] src_beam_map 30 12 6 false (Some [1; 1]) 500
      (λ _ _, false) (λ _ _, false) (λ _, Retcode 0) (λ _, true) 0 = Some s0
    ∧ ¬ active_ms s0 ≡ₚ held_by ["A"] src_beam_map (elements (active_ids s0)).
Proof.
  intros src_beam_map. eexists. split; [vm_compute; reflexivity|].
  intros Hperm%Permutation_length. vm_compute in Hperm. discriminate.
Qed.

(** ** The driver loop *)

Lemma loops_app tr1 tr2 : loops (tr1 ++ tr2) = (loops tr1 + loops tr2)%nat.
Proof. unfold loops. by rewrite filter_app, length_app. Qed.

Lemma loops_within_refl n s : loops_within n s s.
Proof. exists []. rewrite app_nil_r. split; [done|]. unfold loops. simpl. lia. Qed.

Lemma loops_within_trans n m s1 s2 s3 :
  loops_within n s1 s2 → loops_within m s2 s3 → loops_within (n + m) s1 s3.
Proof.
  intros (evs1 & H1 & ?) (evs2 & H2 & ?). exists (evs1 ++ evs2).
  rewrite H2, H1, (assoc_L (++)), loops_app. split; [done|lia].
Qed.

Lemma loops_within_mono n m s s' :
  (n ≤ m)%nat → loops_within n s s' → loops_within m s s'.
Proof. intros ? (evs & ? & ?). exists evs. split; [done|lia]. Qed.

#[local] Instance loops_within_0_preorder : PreOrder (loops_within 0).
Proof.
  split; [intros s; apply loops_within_refl|].
  intros s1 s2 s3 H1 H2. apply (loops_within_trans 0 0 s1 s2 s3 H1 H2).
Qed.

Lemma loops_Forall (P : event → bool) evs :
  (∀ e, P e = true → loop_event e = false) →
  Forall P evs → loops evs = 0%nat.
Proof.
  intros HP Hevs. unfold loops.
  induction Hevs as [|e evs He _ IH]; [done|].
  rewrite filter_cons_False; [done|].
  rewrite (HP e) by (by apply Is_true_true). by intros [].
Qed.

Lemma emitted_loops_within P s s' :
  (∀ e, P e = true → loop_event e = false) →
  emitted P s s' → loops_within 0 s s'.
Proof.
  intros HP (evs & Htr & Hevs). exists evs. split; [done|].
  by rewrite (loops_Forall P).
Qed.

Section driver.
Context (targets : list string) (src_beam_map : gmap string (gset string)).
Context (delay concurrency_limit min_concurrency_limit : Z) (use_pbs : bool).
Context (pre_active_jobs : option (list Z)) (max_loops : Z).
Context (isfile_completed isfile_failed : Z → Z → bool).
Context (subprocess_call : Z → call_result).
Context (os_sleep : Z → bool).

Local Abbreviation cycle' := (cycle targets src_beam_map concurrency_limit
  min_concurrency_limit use_pbs isfile_completed isfile_failed subprocess_call).
Local Abbreviation pause' := (pause delay os_sleep).
Local Abbreviation while_loop' := (while_loop targets src_beam_map delay
  concurrency_limit min_concurrency_limit use_pbs max_loops isfile_completed
  isfile_failed subprocess_call os_sleep).
Local Abbreviation pre_activation' :=
  (pre_activation targets src_beam_map pre_active_jobs).
Local Abbreviation produce_all_cutouts' := (produce_all_cutouts targets
  src_beam_map delay concurrency_limit min_concurrency_limit use_pbs
  pre_active_jobs max_loops isfile_completed isfile_failed subprocess_call os_sleep).
Local Abbreviation observation' := (observation targets src_beam_map delay
  concurrency_limit min_concurrency_limit use_pbs pre_active_jobs max_loops
  isfile_completed isfile_failed subprocess_call os_sleep).

Lemma job_loop_loops isc isf s :
  loops_within 0 s
    (job_loop targets src_beam_map concurrency_limit min_concurrency_limit
       use_pbs isc isf subprocess_call s).1.
Proof.
  unfold job_loop.
  apply (bind_preorder (loops_within 0)).
  { eapply emitted_loops_within;
      [|apply (completion_phase_shrinks targets src_beam_map isc isf s)].
    by intros []. }
  intros _ s1. apply (bind_preorder (loops_within 0)); [|reflexivity].
  eapply emitted_loops_within; [|apply admission_phase_grows].
  by intros [].
Qed.

(** An iteration prints its number once. *)
Lemma cycle_loops i s :
  ∃ evs, trace (cycle' i s).1 = trace s ++ PrintLoop i :: evs ∧ loops evs = 0%nat.
Proof.
  unfold cycle. rewrite bind_run. simpl.
  match goal with
  | |- context [job_loop _ _ _ _ _ ?isc ?isf _ ?s1] =>
      destruct (job_loop_loops isc isf s1) as (evs & Htr & Hevs)
  end.
  exists evs. simpl in Htr. rewrite Htr, <-(assoc_L (++)). split; [done|lia].
Qed.

Lemma pause_state i s : (pause' i s).1 = s.
Proof.
  unfold pause, sleep. py_unfold. by repeat (case_bool_decide || case_match).
Qed.



(** The loop enters at most [max_loops - i] iterations, however much
    fuel it is given. *)
Lemma while_loop_loops fuel i total_concurrency s :
  loops_within (Z.to_nat (max_loops - i)) s
    (while_loop' fuel i total_concurrency s).1.
Proof.
  revert i total_concurrency s.
  induction fuel as [|fuel IH]; intros i total_concurrency s; simpl;
    rewrite bind_run; simpl.
  { destruct (loop_test max_loops i s); apply loops_within_refl. }
  destruct (loop_test max_loops i s) eqn:Htest; [|apply loops_within_refl].
  apply andb_true_iff in Htest as [_ Hi%bool_decide_eq_true].
  rewrite bind_run.
  destruct (cycle_loops (i + 1) s) as (evs & Htr & Hevs).
  assert (loops_within 1 s (cycle' (i + 1) s).1) as Hcycle.
  { exists (PrintLoop (i + 1) :: evs). split; [done|].
    change (PrintLoop (i + 1) :: evs) with ([PrintLoop (i + 1)] ++ evs).
    rewrite loops_app, Hevs. done. }
  destruct (cycle _ _ _ _ _ _ _ _ _ s) as [s1 [n|e]]; simpl in *;
    [|eapply loops_within_mono; [|done]; lia].
  rewrite bind_run. pose proof (pause_state (i + 1) s1) as Hpause.
  destruct (pause delay os_sleep _ s1) as [s2 [[]|e]]; simpl in Hpause;
    subst s2;
    [|eapply loops_within_mono; [|done]; lia].
  eapply loops_within_mono;
    [|exact (loops_within_trans _ _ _ _ _ Hcycle (IH (i + 1) _ s1))].
  lia.
Qed.

(** Fuel beyond [max_loops - i] changes nothing: the [O] branch of
    [while_loop] is only reached when the test of the loop is false. *)
Lemma while_loop_fuel fuel fuel' i total_concurrency s :
  (Z.to_nat (max_loops - i) ≤ fuel)%nat → (fuel ≤ fuel')%nat →
  while_loop' fuel i total_concurrency s
  = while_loop' fuel' i total_concurrency s.
Proof.
  revert fuel' i total_concurrency s.
  induction fuel as [|fuel IH]; intros fuel' i total_concurrency s Hi Hle.
  - assert (loop_test max_loops i s = false) as Htest.
    { unfold loop_test. rewrite (bool_decide_false (i < max_loops)) by lia.
      apply andb_false_r. }
    destruct fuel'; simpl; rewrite !bind_run; simpl; by rewrite Htest.
  - destruct fuel' as [|fuel']; [lia|]. simpl. rewrite !bind_run. simpl.
    destruct (loop_test max_loops i s) eqn:Htest; [|done].
    rewrite !bind_run. destruct (cycle _ _ _ _ _ _ _ _ _ s) as [s1 [n|e]];
      [|done].
    rewrite !bind_run.
    destruct (pause delay os_sleep _ s1) as [s2 [[]|e]]; [|done].
    apply IH; lia.
Qed.

Lemma register_one_loops array_id u s :
  loops_within 0 s (register_one targets src_beam_map array_id u s).1.
Proof.
  unfold register_one. py_unfold.
  repeat case_match; simplify_eq/=; try apply loops_within_refl.
  eexists. split; [reflexivity|done].
Qed.

Lemma pre_activation_loops s : loops_within 0 s (pre_activation' s).1.
Proof.
  unfold pre_activation.
  apply (bind_preorder (loops_within 0)); [reflexivity|]. intros s0 s1.
  apply (bind_preorder (loops_within 0)).
  { eexists. split; [reflexivity|done]. }
  intros _ s2. unfold register_active.
  destruct pre_active_jobs as [[|array_id jobs]|]; try reflexivity.
  apply (bind_preorder (loops_within 0)).
  { apply for_in_preorder; [apply _|]. intros. apply register_one_loops. }
  intros _ s3. reflexivity.
Qed.



(** *** The loop and the observation points *)





End driver.



(** * Further properties of the code *)

(** ** The catalogue: [read_image_params] and [build_map] *)

Lemma add_target_fold rows targets :
  NoDup targets →
  NoDup (foldl add_target targets rows)
  ∧ targets `prefix_of` foldl add_target targets rows
  ∧ ∀ name, name ∈ foldl add_target targets rows
            ↔ name ∈ targets ∨ name ∈ rows.*1.
Proof.
  revert targets. induction rows as [|row rows IH]; intros targets Hnd; simpl.
  { split_and!; [done..|]. intros name. rewrite elem_of_nil. tauto. }
  assert (NoDup (add_target targets row)
          ∧ targets `prefix_of` add_target targets row
          ∧ ∀ name, name ∈ add_target targets row
                    ↔ name ∈ targets ∨ name = row.1) as (Hnd' & Hpre & Hin).
  { unfold add_target. case_bool_decide as Hrow.
    - split_and!; [done..|]. intros name. split; [by left|].
      by intros [?| ->].
    - split_and!.
      + apply NoDup_app. split_and!; [done| |apply NoDup_singleton].
        intros name ? ->%list_elem_of_singleton. done.
      + by apply prefix_app_r.
      + intros name. by rewrite elem_of_app, list_elem_of_singleton. }
  destruct (IH _ Hnd') as (? & ? & Hall). split_and!; [done|by etrans|].
  intros name. rewrite Hall, Hin, elem_of_cons. tauto.
Qed.

(** X1. The targets are the component names of the table, each listed
    once, however many rows a component has. *)
Theorem read_image_params_targets image_params :
  NoDup (read_image_params image_params)
  ∧ ∀ name, name ∈ read_image_params image_params ↔ name ∈ image_params.*1.
Proof.
  destruct (add_target_fold image_params [] (NoDup_nil_2)) as (? & _ & Hall).
  split; [done|]. intros name. unfold read_image_params. rewrite Hall.
  rewrite elem_of_nil. tauto.
Qed.

(** X2. Rows added at the end of the table leave the targets found so
    far where they are: the job ids of the shorter table keep their
    components. *)
Theorem read_image_params_stable image_params more :
  read_image_params image_params
  `prefix_of` read_image_params (image_params ++ more).
Proof.
  unfold read_image_params. rewrite foldl_app.
  apply add_target_fold.
  by destruct (add_target_fold image_params [] (NoDup_nil_2)).
Qed.

Lemma add_beam_fold rows (src_beam_map : gmap string (gset string)) name :
  (is_Some (foldl add_beam src_beam_map rows !! name)
   ↔ is_Some (src_beam_map !! name) ∨ name ∈ rows.*1)
  ∧ ∀ beam_id,
      beam_id ∈ default ∅ (foldl add_beam src_beam_map rows !! name)
      ↔ beam_id ∈ default ∅ (src_beam_map !! name) ∨ (name, beam_id) ∈ rows.
Proof.
  revert src_beam_map.
  induction rows as [|[comp_name beam] rows IH]; intros src_beam_map; simpl.
  { split; [|intros beam_id]; rewrite elem_of_nil; tauto. }
  destruct (IH (add_beam src_beam_map (comp_name, beam))) as [Hdom Hbeams].
  unfold add_beam in *. simpl in *. split.
  - rewrite Hdom, elem_of_cons, lookup_insert.
    case_decide as Hname; simplify_eq/=.
    + split; [by right; left|by intros; left].
    + split; [intros [?|?]; auto|]. intros [?|[?|?]]; auto. done.
  - intros beam_id. rewrite Hbeams, elem_of_cons, lookup_insert.
    case_decide as Hname; simplify_eq/=.
    + rewrite elem_of_union, elem_of_singleton. split.
      * intros [[?| ->]|?]; auto.
      * intros [?|[[= ->]|?]]; auto.
    + split; [intros [?|?]; auto|]. intros [?|[[= ? ?]|?]]; auto. done.
Qed.

(** X3. The map has an entry for a name exactly when the table has a row
    of that name, and the entry holds exactly the beam ids of those
    rows. *)
Theorem build_map_rows image_params name :
  (is_Some (build_map image_params !! name) ↔ name ∈ image_params.*1)
  ∧ ∀ beams, build_map image_params !! name = Some beams →
             ∀ beam_id, beam_id ∈ beams ↔ (name, beam_id) ∈ image_params.
Proof.
  destruct (add_beam_fold image_params ∅ name) as [Hdom Hbeams].
  fold (build_map image_params) in Hdom, Hbeams. split.
  - rewrite Hdom, lookup_empty. split; [by intros [[]%is_Some_None|]|by right].
  - intros beams Hsome beam_id. specialize (Hbeams beam_id).
    rewrite Hsome, lookup_empty in Hbeams. simpl in Hbeams.
    rewrite Hbeams. set_solver.
Qed.

Lemma build_map_rows_witness :
  "m2" ∈ ({["m1"; "m2"]} : gset string)
  ↔ ("A", "m2") ∈ [("A", "m1"); ("B", "m1"); ("A", "m2")].
Proof.
  destruct (build_map_rows [("A", "m1"); ("B", "m1"); ("A", "m2")] "A")
    as [_ Hbeams].
  apply Hbeams. vm_compute. reflexivity.
Defined.

(** X4. Every job id of a catalogue, from [1] to the number of targets,
    has an entry in the map built from the same table, with at least one
    measurement set: neither lookup of [job_loop] raises for it. *)
Theorem catalogue_jobs_have_ms image_params array_id :
  1 ≤ array_id ≤ Z.of_nat (length (read_image_params image_params)) →
  ∃ comp_name tgt_ms,
    py_getitem (read_image_params image_params) (array_id - 1) = Some comp_name
    ∧ build_map image_params !! comp_name = Some tgt_ms
    ∧ tgt_ms ≠ ∅.
Proof.
  intros (tgt_ms & Hms & Hne)%catalogue_job_ms.
  apply job_ms_Some in Hms as (comp_name & ? & ?). by exists comp_name, tgt_ms.
Qed.

Lemma catalogue_jobs_have_ms_witness :
  let image_params := [("A", "m1"); ("B", "m1"); ("A", "m2")] in
  ∃ comp_name tgt_ms,
    py_getitem (read_image_params image_params) (2 - 1) = Some comp_name
    ∧ build_map image_params !! comp_name = Some tgt_ms
    ∧ tgt_ms ≠ ∅.
Proof.
  intros image_params.
  apply (catalogue_jobs_have_ms image_params 2). vm_compute.
  split; discriminate.
Defined.

(** ** [register_active] *)

Lemma register_one_raises_which targets src_beam_map array_id s :
  job_ms targets src_beam_map array_id = None →
  register_one targets src_beam_map array_id tt s
  = (s, Raise (match py_getitem targets (array_id - 1) with
               | None => IndexError
               | Some _ => KeyError
               end)).
Proof.
  unfold job_ms, register_one. py_unfold.
  destruct (py_getitem _ _) as [comp_name|]; simpl; [|done]. by intros ->.
Qed.

(** X5. When every listed job has measurement sets, [register_active]
    returns, adds the listed ids to [active_ids] and their measurement
    sets, in list order and once per listing, at the end of [active_ms];
    the queue and the retired names are untouched. It returns the number
    of active ids, except that for an empty list it returns [0] whatever
    is active. *)
Theorem register_active_effect targets src_beam_map jobs s :
  Forall (λ array_id, is_Some (job_ms targets src_beam_map array_id)) jobs →
  ∃ s', register_active targets src_beam_map (Some jobs) s
        = (s', Return (match jobs with
                       | [] => 0%nat
                       | _ => size (active_ids s')
                       end))
        ∧ active_ids s' = list_to_set jobs ∪ active_ids s
        ∧ active_ms s' = active_ms s ++ held_by targets src_beam_map jobs
        ∧ remaining_array_ids s' = remaining_array_ids s
        ∧ completed_srcs s' = completed_srcs s
        ∧ failed_srcs s' = failed_srcs s.
Proof.
  intros Hjobs.
  destruct (register_loop targets src_beam_map jobs s Hjobs)
    as (s' & Hrun & Hrest).
  exists s'. split; [|done]. unfold register_active.
  destruct jobs as [|array_id jobs].
  - cbv [for_in ret] in Hrun. by injection Hrun as <-.
  - by rewrite bind_run, Hrun.
Qed.

Lemma register_active_effect_witness :
  let src_beam_map : gmap string (gset string) :=
    <["A" := {["m1"]}]> (<["B" := {["m1"]}]> ∅) in
  let s := mkState {[2]} ["m1"] [1; 2] ∅ ∅ [] in
  ∃ s', register_active ["A"; "B"] src_beam_map (Some [1; 2]) s
        = (s', Return (size (active_ids s')))
        ∧ active_ids s' = list_to_set [1; 2] ∪ active_ids s
        ∧ active_ms s' = active_ms s ++ held_by ["A"; "B"] src_beam_map [1; 2]
        ∧ remaining_array_ids s' = remaining_array_ids s
        ∧ completed_srcs s' = completed_srcs s
        ∧ failed_srcs s' = failed_srcs s.
Proof.
  intros src_beam_map s.
  apply (register_active_effect ["A"; "B"] src_beam_map [1; 2] s).
  repeat constructor; by eexists.
Defined.

(** X6. A listed job without measurement sets stops [register_active]
    with [IndexError] (no such target) or [KeyError] (no such entry in the
    map); the jobs listed before it stay registered, the ones after it
    are not looked at. *)
Theorem register_active_raises targets src_beam_map before array_id after s :
  Forall (λ array_id, is_Some (job_ms targets src_beam_map array_id)) before →
  job_ms targets src_beam_map array_id = None →
  ∃ s', register_active targets src_beam_map
          (Some (before ++ array_id :: after)) s
        = (s', Raise (match py_getitem targets (array_id - 1) with
                      | None => IndexError
                      | Some _ => KeyError
                      end))
        ∧ active_ids s' = list_to_set before ∪ active_ids s
        ∧ active_ms s' = active_ms s ++ held_by targets src_beam_map before.
Proof.
  intros Hbefore Hnone.
  destruct (register_loop targets src_beam_map before s Hbefore)
    as (s' & Hrun & Hids & Hms & _).
  exists s'. split; [|done]. unfold register_active.
  destruct (before ++ array_id :: after) as [|x l] eqn:Hl.
  { by destruct before. }
  rewrite <-Hl, bind_run, for_in_app, bind_run, Hrun. simpl.
  by rewrite bind_run, (register_one_raises_which _ _ _ _ Hnone).
Qed.

Lemma register_active_raises_witness :
  let src_beam_map : gmap string (gset string) :=
    <["A" := {["m1"]}]> (<["B" := {["m2"]}]> ∅) in
  ∃ s', register_active ["A"; "B"] src_beam_map (Some ([2] ++ 3 :: [1]))
          (init_state ["A"; "B"]) = (s', Raise IndexError)
        ∧ active_ids s' = list_to_set [2] ∪ active_ids (init_state ["A"; "B"])
        ∧ active_ms s'
          = active_ms (init_state ["A"; "B"])
            ++ held_by ["A"; "B"] src_beam_map [2].
Proof.
  intros src_beam_map.
  apply (register_active_raises ["A"; "B"] src_beam_map [2] 3 [1]).
  - repeat constructor. by eexists.
  - reflexivity.
Defined.

(** X7. [targets[array_id-1]] takes an index below zero from the end of
    the list: an id from [1 - len(targets)] to [0] is accepted like the id
    [len(targets)] more, and registers the measurement sets of that
    target under the id given. *)
Theorem register_active_wraps targets src_beam_map array_id tgt_ms s :
  1 ≤ array_id ≤ Z.of_nat (length targets) →
  job_ms targets src_beam_map array_id = Some tgt_ms →
  let wrapped := array_id - Z.of_nat (length targets) in
  register_active targets src_beam_map (Some [wrapped]) s
  = (mkState ({[wrapped]} ∪ active_ids s) (active_ms s ++ elements tgt_ms)
       (remaining_array_ids s) (completed_srcs s) (failed_srcs s)
       (trace s ++ [PrintRegistered wrapped (size ({[wrapped]} ∪ active_ids s))]),
     Return (size ({[wrapped]} ∪ active_ids s))).
Proof.
  intros Hid Hms wrapped.
  assert (job_ms targets src_beam_map wrapped = Some tgt_ms) as Hw.
  { rewrite <-Hms. unfold job_ms, py_getitem, wrapped.
    rewrite (bool_decide_false (0 ≤ array_id - Z.of_nat (length targets) - 1))
      by lia.
    rewrite !bool_decide_true by lia.
    by replace (Z.of_nat (length targets)
                + (array_id - Z.of_nat (length targets) - 1))
      with (array_id - 1) by lia. }
  unfold register_active. rewrite bind_run. simpl.
  by rewrite bind_run, (register_one_run _ _ _ _ _ Hw).
Qed.

Lemma register_active_wraps_witness :
  let src_beam_map : gmap string (gset string) :=
    <["A" := {["m1"]}]> (<["B" := {["m2"]}]> ∅) in
  let s := init_state ["A"; "B"] in
  register_active ["A"; "B"] src_beam_map (Some [0]) s
  = (mkState ({[0]} ∪ active_ids s) (active_ms s ++ elements ({["m2"]} : gset string))
       (remaining_array_ids s) (completed_srcs s) (failed_srcs s)
       (trace s ++ [PrintRegistered 0 (size ({[0]} ∪ active_ids s))]),
     Return (size ({[0]} ∪ active_ids s))).
Proof.
  intros src_beam_map s.
  apply (register_active_wraps ["A"; "B"] src_beam_map 2 {["m2"]} s).
  - simpl. lia.
  - reflexivity.
Defined.

(** ** [mark_comp_done] *)

Lemma py_list_remove_None {A} `{EqDecision A} (x : A) l :
  x ∉ l → py_list_remove x l = None.
Proof.
  induction l as [|y l IH]; [done|].
  intros [Hne Hl]%not_elem_of_cons. simpl.
  rewrite decide_False by done. by rewrite IH.
Qed.

Lemma release_loop_missing (tgt : list string) ms s :
  ms ∈ tgt → ms ∉ active_ms s →
  ∃ l, for_in tgt release_one tt s = (set_active_ms (λ _, l) s, Raise ValueError)
       ∧ l ⊆+ active_ms s.
Proof.
  revert s. induction tgt as [|ms' tgt IH]; intros s Hin Hout.
  { by apply elem_of_nil in Hin. }
  simpl. rewrite bind_run. unfold release_one at 1. py_unfold.
  destruct (py_list_remove ms' (active_ms s)) as [l1|] eqn:Hl1.
  - pose proof (py_list_remove_perm _ _ _ Hl1) as Hperm. simpl.
    assert (ms ≠ ms') as Hne.
    { intros ->. apply Hout. rewrite Hperm. left. }
    apply elem_of_cons in Hin as [?|Hin]; [done|].
    destruct (IH (set_active_ms (λ _, l1) s) Hin) as (l & -> & Hl).
    { simpl. intros ?. apply Hout. rewrite Hperm. by right. }
    exists l. split; [done|]. simpl in Hl. etrans; [done|].
    rewrite Hperm. by apply submseteq_cons.
  - exists (active_ms s). split; [by destruct s|done].
Qed.

(** X8. Releasing what was just registered gives back the held
    resources: after [register_active] has added a job that was not
    active, [mark_comp_done] for that job returns, [active_ids] is what it
    was and [active_ms] holds what it held, possibly in another order
    ([list.remove] takes the first occurrence, not the one appended). *)
Theorem register_then_release targets src_beam_map array_id tgt_ms s :
  array_id ∉ active_ids s →
  job_ms targets src_beam_map array_id = Some tgt_ms →
  ∃ s', (register_active targets src_beam_map (Some [array_id]) ;;;
         mark_comp_done array_id tgt_ms) s = (s', Return tt)
        ∧ active_ids s' = active_ids s
        ∧ active_ms s' ≡ₚ active_ms s
        ∧ remaining_array_ids s' = remaining_array_ids s
        ∧ completed_srcs s' = completed_srcs s
        ∧ failed_srcs s' = failed_srcs s.
Proof.
  intros Hout Hms. rewrite bind_run. unfold register_active.
  rewrite bind_run. simpl. rewrite bind_run, (register_one_run _ _ _ _ _ Hms).
  simpl.
  match goal with
  | |- context [mark_comp_done _ _ ?s1] =>
      destruct (mark_comp_done_run array_id tgt_ms s1) as (l & -> & Hl)
  end.
  { simpl. set_solver. }
  { simpl. by apply submseteq_inserts_l. }
  eexists. split; [done|]. simpl in *. split_and!; try done.
  - set_solver.
  - rewrite (Permutation_app_comm (active_ms s)) in Hl.
    by apply Permutation_app_inv_l in Hl.
Qed.

Lemma register_then_release_witness :
  let src_beam_map : gmap string (gset string) :=
    <["A" := {["m1"]}]> (<["B" := {["m1"]}]> ∅) in
  let s := mkState {[1]} ["m1"; "m2"] [1; 2] ∅ ∅ [] in
  ∃ s', (register_active ["A"; "B"] src_beam_map (Some [2]) ;;;
         mark_comp_done 2 {["m1"]}) s = (s', Return tt)
        ∧ active_ids s' = active_ids s
        ∧ active_ms s' ≡ₚ active_ms s
        ∧ remaining_array_ids s' = remaining_array_ids s
        ∧ completed_srcs s' = completed_srcs s
        ∧ failed_srcs s' = failed_srcs s.
Proof.
  intros src_beam_map s.
  apply (register_then_release ["A"; "B"] src_beam_map 2 {["m1"]} s).
  - compute_done.
  - reflexivity.
Defined.

(** X9. When [active_ms] lacks one of the measurement sets to release,
    [mark_comp_done] raises [ValueError] after it has taken the job out of
    [active_ids]: the job is no longer active, and some of its measurement
    sets may already be gone from [active_ms]. *)
Theorem mark_comp_done_missing array_id tgt_ms ms s :
  array_id ∈ active_ids s →
  ms ∈ tgt_ms → ms ∉ active_ms s →
  ∃ s', mark_comp_done array_id tgt_ms s = (s', Raise ValueError)
        ∧ active_ids s' = active_ids s ∖ {[array_id]}
        ∧ active_ms s' ⊆+ active_ms s.
Proof.
  intros Hin Hms Hout. unfold mark_comp_done. py_unfold.
  rewrite bool_decide_true by done.
  destruct (release_loop_missing (elements tgt_ms) ms
              (set_active_ids (λ a, a ∖ {[array_id]}) s))
    as (l & -> & Hl); [by apply elem_of_elements|done|].
  by eexists.
Qed.

Lemma mark_comp_done_missing_witness :
  let s := mkState {[1]} ["m1"] [1] ∅ ∅ [] in
  ∃ s', mark_comp_done 1 {["m1"; "m2"]} s = (s', Raise ValueError)
        ∧ active_ids s' = active_ids s ∖ {[1]}
        ∧ active_ms s' ⊆+ active_ms s.
Proof.
  intros s. apply (mark_comp_done_missing 1 {["m1"; "m2"]} "m2" s).
  - compute_done.
  - set_solver.
  - compute_done.
Defined.

(** ** The first loop of [job_loop] and the queue *)

Lemma py_list_remove_sublist {A} `{EqDecision A} (x : A) l l' :
  py_list_remove x l = Some l' → l' `sublist_of` l.
Proof.
  revert l'. induction l as [|y l IH]; intros l' Hl; [done|].
  simpl in Hl. case_decide; simplify_eq; [by apply sublist_cons|].
  destruct (py_list_remove x l) as [r|]; simplify_eq.
  apply sublist_skip. by apply IH.
Qed.

#[local] Instance retires_preorder targets : PreOrder (retires targets).
Proof.
  split.
  - intros s. split; [done..|]. by left.
  - intros s1 s2 s3 [Hc1 Hf1 Hr1 Hl1] [Hc2 Hf2 Hr2 Hl2].
    split; [by etrans..|].
    intros array_id [Hin|(comp_name & ? & Hret)]%Hl1; [by apply Hl2|].
    right. exists comp_name. set_solver.
Qed.

Lemma retires_frame targets s s' :
  remaining_array_ids s' = remaining_array_ids s →
  completed_srcs s' = completed_srcs s →
  failed_srcs s' = failed_srcs s →
  retires targets s s'.
Proof. intros Hr Hc Hf. split; rewrite ?Hr, ?Hc, ?Hf; [done..|]. by left. Qed.

Lemma mark_comp_done_queue array_id tgt_ms s :
  let s' := (mark_comp_done array_id tgt_ms s).1 in
  remaining_array_ids s' = remaining_array_ids s
  ∧ completed_srcs s' = completed_srcs s
  ∧ failed_srcs s' = failed_srcs s.
Proof.
  unfold mark_comp_done. py_unfold. simpl.
  assert (∀ l s1,
    let s' := (for_in l release_one tt s1).1 in
    remaining_array_ids s' = remaining_array_ids s1
    ∧ completed_srcs s' = completed_srcs s1
    ∧ failed_srcs s' = failed_srcs s1) as Hloop.
  { intros l s1. apply (for_in_invariant (λ s',
      remaining_array_ids s' = remaining_array_ids s1
      ∧ completed_srcs s' = completed_srcs s1
      ∧ failed_srcs s' = failed_srcs s1)); [|done].
    intros ms u s2 _ Hs2. unfold release_one. py_unfold.
    by destruct (py_list_remove _ _). }
  case_bool_decide; [|done].
  apply (Hloop (elements tgt_ms) (set_active_ids (λ a, a ∖ {[array_id]}) s)).
Qed.

Section queue.
Context (targets : list string) (src_beam_map : gmap string (gset string)).
Context (isfile_completed isfile_failed : Z → bool).

Lemma retire_retires array_id comp_name done skipped add_src s :
  py_getitem targets (array_id - 1) = Some comp_name →
  add_src = set_completed ∨ add_src = set_failed →
  retires targets s
    (retire src_beam_map array_id comp_name done skipped add_src s).1.
Proof.
  intros Hname Hadd. unfold retire.
  apply (bind_preorder (retires targets)); [reflexivity|]. intros s0 s1.
  apply (bind_preorder (retires targets)).
  - case_bool_decide; [|by apply retires_frame].
    apply (bind_preorder (retires targets)); [by apply retires_frame|].
    intros _ s2. apply (bind_preorder (retires targets)).
    { unfold lookup_beams. destruct (_ !! _); reflexivity. }
    intros tgt_ms s3.
    destruct (mark_comp_done_queue array_id tgt_ms s3) as (? & ? & ?).
    by apply retires_frame.
  - intros _ s2. py_unfold. simpl.
    assert (remaining_array_ids (add_src (λ srcs, {[comp_name]} ∪ srcs) s2)
            = remaining_array_ids s2) as Hrem by (by destruct Hadd as [->| ->]).
    assert (retires targets s2 (add_src (λ srcs, {[comp_name]} ∪ srcs) s2))
      as Hadded.
    { destruct Hadd as [->| ->]; (split; simpl; [set_solver..|done|by left]). }
    rewrite Hrem.
    destruct (py_list_remove array_id (remaining_array_ids s2)) as [l|] eqn:Hl;
      [|done].
    simpl. split.
    + destruct Hadd as [->| ->]; simpl; set_solver.
    + destruct Hadd as [->| ->]; simpl; set_solver.
    + simpl. by eapply py_list_remove_sublist.
    + intros id Hid. simpl.
      rewrite (py_list_remove_perm _ _ _ Hl) in Hid.
      apply elem_of_cons in Hid as [->|?]; [|by left].
      right. exists comp_name. split; [done|].
      destruct Hadd as [->| ->]; simpl; set_solver.
Qed.

Lemma scan_completed_retires array_id u s :
  retires targets s
    (scan_completed targets src_beam_map isfile_completed isfile_failed
       array_id u s).1.
Proof.
  unfold scan_completed, lookup_target.
  destruct (py_getitem targets (array_id - 1)) as [comp_name|] eqn:Hname;
    [|reflexivity].
  rewrite bind_run. simpl. rewrite bind_run. simpl.
  repeat case_match; try reflexivity; apply retire_retires; auto.
Qed.

Lemma job_loop_retires concurrency_limit min_concurrency_limit use_pbs
    subprocess_call s :
  retires targets s
    (job_loop targets src_beam_map concurrency_limit min_concurrency_limit
       use_pbs isfile_completed isfile_failed subprocess_call s).1.
Proof.
  unfold job_loop. apply (bind_preorder (retires targets)).
  { unfold completion_phase. rewrite bind_run. simpl.
    apply (for_in_preorder (retires targets)).
    intros. apply scan_completed_retires. }
  intros _ s1. apply (bind_preorder (retires targets)); [|reflexivity].
  destruct (admission_phase_grows targets src_beam_map concurrency_limit
              min_concurrency_limit use_pbs subprocess_call s1).
  by apply retires_frame.
Qed.

End queue.

(** X10. Without a marker file for any queued job, the first loop of
    [job_loop] changes nothing at all: no job is released or retired,
    nothing is printed, whether the loop returns or a lookup raises. *)
Theorem completion_phase_no_markers targets src_beam_map isfile_completed
    isfile_failed s :
  (∀ array_id, array_id ∈ remaining_array_ids s →
               isfile_completed array_id = false
               ∧ isfile_failed array_id = false) →
  (completion_phase targets src_beam_map isfile_completed isfile_failed s).1 = s.
Proof.
  intros Hnone. unfold completion_phase. rewrite bind_run. simpl.
  apply (for_in_invariant (λ s', s' = s)); [|done].
  intros array_id u s' Hin ->. destruct (Hnone _ Hin) as [Hc Hf].
  unfold scan_completed. py_unfold. rewrite Hc, Hf.
  destruct (py_getitem targets (array_id - 1)) as [comp_name|]; [|done].
  by destruct (_ || _).
Qed.

Lemma completion_phase_no_markers_witness :
  let src_beam_map : gmap string (gset string) := <["A" := {["m1"]}]> ∅ in
  let s := mkState {[1]} ["m1"] [1; 2] ∅ ∅ [] in
  (completion_phase ["A"] src_beam_map (λ _, false) (λ _, false) s).1 = s.
Proof.
  intros src_beam_map s.
  by apply (completion_phase_no_markers ["A"] src_beam_map (λ _, false)
              (λ _, false) s).
Defined.

(** X11. A call of [job_loop], however it ends, only adds to the
    completed and failed names and only takes ids out of the queue, never
    reorders or adds to it; and every id it takes out belongs to a job
    whose name it has recorded as completed or failed. *)
Theorem job_loop_queue targets src_beam_map concurrency_limit
    min_concurrency_limit use_pbs isfile_completed isfile_failed
    subprocess_call s :
  let s' := (job_loop targets src_beam_map concurrency_limit
               min_concurrency_limit use_pbs isfile_completed isfile_failed
               subprocess_call s).1 in
  completed_srcs s ⊆ completed_srcs s'
  ∧ failed_srcs s ⊆ failed_srcs s'
  ∧ remaining_array_ids s' `sublist_of` remaining_array_ids s
  ∧ ∀ array_id, array_id ∈ remaining_array_ids s →
                array_id ∉ remaining_array_ids s' →
                retired targets s' array_id.
Proof.
  intros s'.
  destruct (job_loop_retires targets src_beam_map isfile_completed
              isfile_failed concurrency_limit min_concurrency_limit use_pbs
              subprocess_call s) as [Hc Hf Hr Hl].
  split_and!; [done..|]. intros array_id Hin Hout.
  by destruct (Hl _ Hin).
Qed.

(** *** Every job in one place *)

Section partition.
Context (targets : list string) (src_beam_map : gmap string (gset string)).
Context (Htargets : NoDup targets).

Lemma py_getitem_in_range array_id :
  1 ≤ array_id ≤ Z.of_nat (length targets) →
  py_getitem targets (array_id - 1) = targets !! Z.to_nat (array_id - 1).
Proof. intros ?. unfold py_getitem. by rewrite bool_decide_true by lia. Qed.

Lemma same_name_same_id id1 id2 comp_name :
  1 ≤ id1 ≤ Z.of_nat (length targets) →
  1 ≤ id2 ≤ Z.of_nat (length targets) →
  py_getitem targets (id1 - 1) = Some comp_name →
  py_getitem targets (id2 - 1) = Some comp_name →
  id1 = id2.
Proof.
  intros H1 H2. rewrite !py_getitem_in_range by done. intros Hn1 Hn2.
  pose proof (proj1 (NoDup_alt targets) Htargets _ _ _ Hn1 Hn2). lia.
Qed.

Lemma partitioned_frame s s' :
  remaining_array_ids s' = remaining_array_ids s →
  completed_srcs s' = completed_srcs s →
  failed_srcs s' = failed_srcs s →
  partitioned targets s → partitioned targets s'.
Proof. unfold partitioned, retired. by intros -> -> ->. Qed.

(** Retiring a queued job of the catalogue under its own, fresh name. *)
Lemma partitioned_retire s s' array_id comp_name l (to_completed : bool) :
  partitioned targets s →
  1 ≤ array_id ≤ Z.of_nat (length targets) →
  py_getitem targets (array_id - 1) = Some comp_name →
  comp_name ∉ completed_srcs s → comp_name ∉ failed_srcs s →
  py_list_remove array_id (remaining_array_ids s) = Some l →
  remaining_array_ids s' = l →
  completed_srcs s'
  = (if to_completed then {[comp_name]} ∪ completed_srcs s
     else completed_srcs s) →
  failed_srcs s'
  = (if to_completed then failed_srcs s
     else {[comp_name]} ∪ failed_srcs s) →
  partitioned targets s'.
Proof.
  intros (Hnd & Hrange & Hdisj & Hpart) Hid Hname Hc Hf Hl Hrem Hc' Hf'.
  pose proof (py_list_remove_perm _ _ _ Hl) as Hperm.
  rewrite Hperm in Hnd. apply NoDup_cons in Hnd as [Hout Hnd].
  unfold partitioned. rewrite Hrem, Hc', Hf'. split_and!.
  - done.
  - intros id ?. apply Hrange. rewrite Hperm. by right.
  - destruct to_completed; set_solver.
  - intros id Hin. destruct (decide (id = array_id)) as [->|Hne].
    + split; [done|]. intros Hnot. destruct Hnot. exists comp_name.
      split; [done|]. rewrite Hc', Hf'. destruct to_completed; set_solver.
    + assert (id ∈ l ↔ id ∈ remaining_array_ids s) as ->.
      { rewrite Hperm, elem_of_cons. naive_solver. }
      rewrite (Hpart id Hin). unfold retired. rewrite Hc', Hf'.
      split; intros Hnot (name & Hn & Hret); apply Hnot; exists name;
        (split; [done|]).
      * assert (name ≠ comp_name) as Hnn.
        { intros ->. apply Hne. by eapply same_name_same_id. }
        clear -Hret Hnn. destruct to_completed; set_solver.
      * clear -Hret. destruct to_completed; set_solver.
Qed.

Lemma retire_partitioned array_id comp_name done skipped
    (to_completed : bool) s :
  partitioned targets s →
  1 ≤ array_id ≤ Z.of_nat (length targets) →
  py_getitem targets (array_id - 1) = Some comp_name →
  comp_name ∉ completed_srcs s → comp_name ∉ failed_srcs s →
  partitioned targets
    (retire src_beam_map array_id comp_name done skipped
       (if to_completed then set_completed else set_failed) s).1.
Proof.
  intros Hs Hid Hname Hc Hf. unfold retire. rewrite bind_run. simpl.
  rewrite bind_run.
  assert (∀ s1 : State,
    remaining_array_ids s1 = remaining_array_ids s →
    completed_srcs s1 = completed_srcs s →
    failed_srcs s1 = failed_srcs s →
    partitioned targets
      ((modify ((if to_completed then set_completed else set_failed)
                  (λ srcs, {[comp_name]} ∪ srcs)) ;;;
        remove_remaining array_id) s1).1) as Hrest.
  { intros s1 Hr1 Hc1 Hf1. py_unfold. simpl.
    assert (array_id ∈ remaining_array_ids s) as Hin.
    { destruct Hs as (_ & _ & _ & Hpart). apply Hpart; [done|].
      intros (name & Hn & Hret). rewrite Hname in Hn. simplify_eq.
      by destruct Hret. }
    destruct (py_list_remove_elem_of _ _ Hin) as [l Hl].
    assert (remaining_array_ids
              ((if to_completed then set_completed else set_failed)
                 (λ srcs, {[comp_name]} ∪ srcs) s1)
            = remaining_array_ids s) as -> by (by destruct to_completed).
    rewrite Hl. simpl.
    eapply (partitioned_retire s _ array_id comp_name l to_completed);
      try done; destruct to_completed; simpl; by rewrite ?Hc1, ?Hf1. }
  case_bool_decide.
  - rewrite bind_run. simpl. rewrite bind_run. unfold lookup_beams.
    destruct (src_beam_map !! comp_name) as [tgt_ms|];
      [|by eapply partitioned_frame].
    simpl.
    match goal with
    | |- context [mark_comp_done _ _ ?s1] =>
        destruct (mark_comp_done_queue array_id tgt_ms s1) as (Hr & Hc1 & Hf1);
        destruct (mark_comp_done array_id tgt_ms s1) as [s2 [[]|e]]
    end; simpl in *.
    + by apply Hrest.
    + by eapply partitioned_frame.
  - simpl. by apply Hrest.
Qed.

Lemma scan_completed_partitioned isfile_completed isfile_failed array_id u s :
  1 ≤ array_id ≤ Z.of_nat (length targets) →
  partitioned targets s →
  partitioned targets
    (scan_completed targets src_beam_map isfile_completed isfile_failed
       array_id u s).1.
Proof.
  intros Hid Hs. unfold scan_completed, lookup_target.
  destruct (py_getitem targets (array_id - 1)) as [comp_name|] eqn:Hname;
    [|done].
  rewrite bind_run. simpl. rewrite bind_run. simpl.
  destruct (bool_decide (comp_name ∈ completed_srcs s)) eqn:Hc; [done|].
  destruct (bool_decide (comp_name ∈ failed_srcs s)) eqn:Hf; [done|].
  apply bool_decide_eq_false in Hc, Hf. simpl.
  destruct (isfile_completed array_id).
  { by apply (retire_partitioned _ _ _ _ true). }
  destruct (isfile_failed array_id); [|done].
  by apply (retire_partitioned _ _ _ _ false).
Qed.

Lemma job_loop_partitioned concurrency_limit min_concurrency_limit use_pbs
    isfile_completed isfile_failed subprocess_call s :
  partitioned targets s →
  partitioned targets
    (job_loop targets src_beam_map concurrency_limit min_concurrency_limit
       use_pbs isfile_completed isfile_failed subprocess_call s).1.
Proof.
  intros Hs. unfold job_loop. rewrite bind_run.
  assert (partitioned targets
            (completion_phase targets src_beam_map isfile_completed
               isfile_failed s).1) as H1.
  { unfold completion_phase. rewrite bind_run. simpl.
    apply for_in_invariant; [|done]. intros array_id u s1 Hin Hs1.
    apply scan_completed_partitioned; [|done]. by apply Hs. }
  destruct (completion_phase _ _ _ _ s) as [s1 [[]|e]]; simpl in *; [|done].
  rewrite bind_run.
  destruct (admission_phase_grows targets src_beam_map concurrency_limit
              min_concurrency_limit use_pbs subprocess_call s1)
    as [Hr Hc Hf _ _ _].
  pose proof (partitioned_frame _ _ Hr Hc Hf H1) as H2.
  by destruct (admission_phase _ _ _ _ _ _ s1) as [s2 [rl|e]].
Qed.

Lemma init_state_partitioned : partitioned targets (init_state targets).
Proof.
  unfold partitioned, retired. simpl.
  assert (∀ array_id, array_id ∈ Z.of_nat <$> seq 1 (length targets)
                      ↔ 1 ≤ array_id ≤ Z.of_nat (length targets)) as Hin.
  { intros array_id. rewrite list_elem_of_fmap. split.
    - intros (n & -> & Hn%elem_of_seq). lia.
    - intros ?. exists (Z.to_nat array_id). split; [lia|].
      apply elem_of_seq. lia. }
  split_and!.
  - apply (NoDup_fmap_2 _). apply NoDup_seq.
  - intros array_id. by rewrite Hin.
  - set_solver.
  - intros array_id ?. rewrite Hin. split; [|done].
    intros _ (name & _ & [?|?]); set_solver.
Qed.

End partition.

#[local] Instance same_queue_preorder : PreOrder same_queue.
Proof.
  split; [by intros s|].
  intros s1 s2 s3 (? & ? & ?) (? & ? & ?). split_and!; congruence.
Qed.

Lemma register_one_queue targets src_beam_map array_id u s :
  same_queue s (register_one targets src_beam_map array_id u s).1.
Proof.
  unfold register_one. py_unfold.
  destruct (py_getitem targets (array_id - 1)) as [comp_name|]; [|done].
  simpl. by destruct (src_beam_map !! comp_name).
Qed.

Lemma pre_activation_queue targets src_beam_map pre_active_jobs s :
  same_queue s (pre_activation targets src_beam_map pre_active_jobs s).1.
Proof.
  unfold pre_activation, register_active.
  apply (bind_preorder same_queue); [reflexivity|]. intros s0 s1.
  apply (bind_preorder same_queue); [done|]. intros _ s2.
  destruct pre_active_jobs as [[|array_id jobs]|]; try reflexivity.
  apply (bind_preorder same_queue); [|intros; reflexivity].
  apply (for_in_preorder same_queue). intros. apply register_one_queue.
Qed.

(** X12. With targets that are pairwise distinct, as [read_image_params]
    makes them, every job is in one place at every observation point of a
    run: the queue names each id at most once and only ids of the
    catalogue, no name is both completed and failed, and a job of the
    catalogue is in the queue exactly when its name is neither completed
    nor failed. *)
Theorem jobs_partitioned targets src_beam_map delay concurrency_limit
    min_concurrency_limit use_pbs pre_active_jobs max_loops
    isfile_completed isfile_failed subprocess_call os_sleep k s :
  NoDup targets →
  observation targets src_beam_map delay concurrency_limit
    min_concurrency_limit use_pbs pre_active_jobs max_loops
    isfile_completed isfile_failed subprocess_call os_sleep k = Some s →
  NoDup (remaining_array_ids s)
  ∧ (∀ array_id, array_id ∈ remaining_array_ids s →
                 1 ≤ array_id ≤ Z.of_nat (length targets))
  ∧ completed_srcs s ## failed_srcs s
  ∧ ∀ array_id, 1 ≤ array_id ≤ Z.of_nat (length targets) →
                (array_id ∈ remaining_array_ids s
                 ↔ ¬ retired targets s array_id).
Proof.
  intros Hnd Hk.
  destruct (observation_first _ _ _ _ _ _ _ _ _ _ _ _ _ _ Hk) as [s0 H0].
  eapply (observation_invariant _ _ _ _ _ _ _ _ _ _ _ _ (partitioned targets));
    [|exact H0| |exact Hk].
  - intros i s1 Hs1. unfold cycle. rewrite bind_run. simpl.
    apply job_loop_partitioned; [done|]. by eapply partitioned_frame.
  - simpl in H0.
    pose proof (pre_activation_queue targets src_beam_map pre_active_jobs
                  (init_state targets)) as (Hr & Hc & Hf).
    destruct (pre_activation _ _ _ _) as [s0' [n|e]]; simplify_eq.
    eapply partitioned_frame; [done..|]. by apply init_state_partitioned.
Qed.

Lemma jobs_partitioned_witness :
  let src_beam_map : gmap string (gset string) :=
    <["A" := {["m1"]}]> (<["B" := {["m2"]}]> ∅) in
  ∃ s,
    observation ["A"; "B"] src_beam_map 30 2 2 false None 500
      (λ i array_id, bool_decide (2 ≤ i ∧ array_id = 1)) (λ _ _, false)
      (λ _, Retcode 0) (λ _, true) 2 = Some s
    ∧ NoDup (remaining_array_ids s)
    ∧ (∀ array_id, array_id ∈ remaining_array_ids s → 1 ≤ array_id ≤ 2)
    ∧ completed_srcs s ## failed_srcs s
    ∧ ∀ array_id, 1 ≤ array_id ≤ 2 →
                  (array_id ∈ remaining_array_ids s
                   ↔ ¬ retired ["A"; "B"] s array_id).
Proof.
  intros src_beam_map. eexists. split; [vm_compute; reflexivity|].
  apply (jobs_partitioned ["A"; "B"] src_beam_map 30 2 2 false None 500
           (λ i array_id, bool_decide (2 ≤ i ∧ array_id = 1)) (λ _ _, false)
           (λ _, Retcode 0) (λ _, true) 2).
  - repeat constructor; set_solver.
  - vm_compute. reflexivity.
Defined.

(** ** The second loop of [job_loop] *)

(** X13. With the ceiling reached, the second loop starts nothing: the
    active ids and the held measurement sets stay as they are, and the
    only thing that may be printed is the rate-limit notice. *)
Theorem admission_at_ceiling targets src_beam_map concurrency_limit
    min_concurrency_limit use_pbs subprocess_call s :
  concurrency_limit ≤ Z.of_nat (size (active_ids s)) →
  let s' := (admission_phase targets src_beam_map concurrency_limit
               min_concurrency_limit use_pbs subprocess_call s).1 in
  active_ids s' = active_ids s
  ∧ active_ms s' = active_ms s
  ∧ ∃ evs, trace s' = trace s ++ evs ∧ Forall rate_limit_event evs.
Proof.
  intros Hfull s'. subst s'. unfold admission_phase. rewrite bind_run. simpl.
  apply (for_in_invariant (λ s',
    active_ids s' = active_ids s ∧ active_ms s' = active_ms s
    ∧ emitted rate_limit_event s s')); [|by split_and!].
  intros array_id rate_limited s1 _ (Hids & Hms & Htr).
  assert (emitted rate_limit_event s1
            (mkState (active_ids s1) (active_ms s1) (remaining_array_ids s1)
               (completed_srcs s1) (failed_srcs s1)
               (trace s1 ++ [PrintRateLimit concurrency_limit]))) as Hnotice.
  { eexists. split; [done|]. by repeat constructor. }
  unfold scan_start. py_unfold. rewrite Hids.
  repeat (case_match || case_bool_decide); simplify_eq/=; try lia;
    split_and!; try done; by etrans.
Qed.

Lemma admission_at_ceiling_witness :
  let src_beam_map : gmap string (gset string) :=
    <["A" := {["m1"]}]> (<["B" := {["m2"]}]> ∅) in
  let s := mkState {[1]} ["m1"] [1; 2] ∅ ∅ [] in
  let s' := (admission_phase ["A"; "B"] src_beam_map 1 1 false
               (λ _, Retcode 0) s).1 in
  active_ids s' = active_ids s
  ∧ active_ms s' = active_ms s
  ∧ ∃ evs, trace s' = trace s ++ evs ∧ Forall rate_limit_event evs.
Proof.
  intros src_beam_map s.
  apply (admission_at_ceiling ["A"; "B"] src_beam_map 1 1 false
           (λ _, Retcode 0) s).
  vm_compute. discriminate.
Defined.

Lemma post_bind {A B} (J : A → State → Prop) (J' : B → State → Prop)
    (Q : exn → State → Prop) (m : Py A) (k : A → Py B) s :
  post J Q (m s) → (∀ a s', J a s' → post J' Q (k a s')) →
  post J' Q (bind m k s).
Proof.
  intros Hm Hk. rewrite bind_run. destruct (m s) as [s' [a|e]]; simpl in *;
    [by apply Hk|done].
Qed.

Lemma post_for_in {A L} (J : L → State → Prop) (Q : exn → State → Prop)
    (body : A → L → Py L) l :
  (∀ x loc s, x ∈ l → J loc s → post J Q (body x loc s)) →
  ∀ loc s, J loc s → post J Q (for_in l body loc s).
Proof.
  induction l as [|x l IH]; intros Hbody loc s Hs; [done|].
  simpl. eapply post_bind; [apply Hbody; [left|done]|].
  intros loc' s' Hs'. apply IH; [|done].
  intros y ? ? Hy. apply Hbody. by right.
Qed.

Lemma post_mono {A} (J J' : A → State → Prop) (Q Q' : exn → State → Prop) r :
  (∀ a s, J a s → J' a s) → (∀ e s, Q e s → Q' e s) →
  post J Q r → post J' Q' r.
Proof. destruct r as [s [a|e]]; simpl; auto. Qed.

Lemma notices_app tr1 tr2 :
  notices (tr1 ++ tr2) = (notices tr1 + notices tr2)%nat.
Proof. unfold notices. by rewrite filter_app, length_app. Qed.

(** X14. One pass of the second loop prints the rate-limit notice at
    most once, however many jobs it leaves waiting: once the notice is out
    the ceiling is reached, no job is started any more, and [rate_limited]
    stays set. *)
Theorem one_rate_limit_notice targets src_beam_map concurrency_limit
    min_concurrency_limit use_pbs subprocess_call s :
  let s' := (admission_phase targets src_beam_map concurrency_limit
               min_concurrency_limit use_pbs subprocess_call s).1 in
  ∃ evs, trace s' = trace s ++ evs ∧ (notices evs ≤ 1)%nat.
Proof.
  intros s'. subst s'. unfold admission_phase. rewrite bind_run. simpl.
  pose (J := λ (rate_limited : bool) (s' : State),
    ∃ evs, trace s' = trace s ++ evs
           ∧ ((rate_limited = false ∧ notices evs = 0%nat)
              ∨ (rate_limited = true ∧ notices evs = 1%nat
                 ∧ concurrency_limit ≤ Z.of_nat (size (active_ids s'))))).
  pose (Q := λ (_ : exn) (s' : State),
    ∃ evs, trace s' = trace s ++ evs ∧ (notices evs ≤ 1)%nat).
  assert (∀ rl s1, J rl s1 → Q TypeError s1) as HJQ.
  { intros rl s1 (evs & Htr & Hn). exists evs. split; [done|].
    destruct Hn as [[_ ->]|(_ & -> & _)]; lia. }
  assert (post J Q (for_in (remaining_array_ids s)
            (scan_start targets src_beam_map concurrency_limit
               min_concurrency_limit use_pbs subprocess_call) false s)) as Hpost.
  { apply post_for_in.
    2:{ exists []. rewrite app_nil_r. split; [done|]. by left. }
    intros array_id rl s1 _ HJ. pose proof (HJQ _ _ HJ) as HQ.
    destruct HJ as (evs & Htr & Hn).
    unfold scan_start. py_unfold.
    repeat (case_match || case_bool_decide); simplify_eq/=;
      try (by exists evs); try done.
    1-3: (destruct Hn as [[_ Hn]|(_ & _ & ?)]; [|lia];
          unfold J, Q; eexists (evs ++ [_; _]);
          rewrite Htr, <-!(assoc_L (++)), notices_app, Hn;
          split; [reflexivity|];
          first [ by left | unfold notices; simpl; lia ]).
    destruct Hn as [[_ Hn]|(-> & _)]; [|done].
    unfold J. eexists (evs ++ [_]).
    rewrite Htr, <-!(assoc_L (++)), notices_app, Hn. split; [reflexivity|].
    right. split_and!; [done|done|simpl; lia]. }
  destruct (for_in _ _ false s) as [s1 [rl|e]]; simpl in *.
  - by apply (HJQ rl).
  - done.
Qed.

Lemma launched_app tr1 tr2 : launched (tr1 ++ tr2) = launched tr1 ++ launched tr2.
Proof. unfold launched. apply omap_app. Qed.

(** X15. One pass of the second loop submits a job at most once, and
    only a job that was in the queue and not active when the pass began;
    every job it submits is active afterwards, also when the pass ends in
    a raise. *)
Theorem admission_submits_once targets src_beam_map concurrency_limit
    min_concurrency_limit use_pbs subprocess_call s :
  let s' := (admission_phase targets src_beam_map concurrency_limit
               min_concurrency_limit use_pbs subprocess_call s).1 in
  ∃ evs, trace s' = trace s ++ evs
         ∧ NoDup (launched evs)
         ∧ ∀ array_id, array_id ∈ launched evs →
                       array_id ∈ remaining_array_ids s
                       ∧ (array_id ∉ active_ids s)
                       ∧ array_id ∈ active_ids s'.
Proof.
  intros s'. subst s'. unfold admission_phase. rewrite bind_run. simpl.
  pose (I := λ s1 : State,
    active_ids s ⊆ active_ids s1
    ∧ ∃ evs, trace s1 = trace s ++ evs
             ∧ NoDup (launched evs)
             ∧ ∀ array_id, array_id ∈ launched evs →
                           array_id ∈ remaining_array_ids s
                           ∧ (array_id ∉ active_ids s)
                           ∧ array_id ∈ active_ids s1).
  assert (I (for_in (remaining_array_ids s)
               (scan_start targets src_beam_map concurrency_limit
                  min_concurrency_limit use_pbs subprocess_call) false s).1)
    as [_ H]; [|done].
  apply for_in_invariant.
  2:{ split; [done|]. exists []. rewrite app_nil_r.
      split_and!; [done|constructor|]. by intros ? ?%elem_of_nil. }
  intros array_id rl s1 Hq (Hsub & evs & Htr & Hnd & Hall).
  assert (I s1) as Hs1 by (split; [done|by exists evs]).
  unfold scan_start. py_unfold.
  repeat (case_match || case_bool_decide); simplify_eq/=; try done.
  1-3: (split; [set_solver|]; eexists (evs ++ [_; _]);
        rewrite Htr, <-!(assoc_L (++)), launched_app; split; [reflexivity|];
        simpl; split;
        [ apply NoDup_app; split_and!; [done| |apply NoDup_singleton];
          intros id [_ [_ ?]]%Hall ->%list_elem_of_singleton; done
        | intros id [[? [? ?]]%Hall| ->%list_elem_of_singleton]%elem_of_app;
          set_solver ]).
  split; [done|]. eexists (evs ++ [_]).
  rewrite Htr, <-!(assoc_L (++)), launched_app. split; [reflexivity|].
  simpl. by rewrite app_nil_r.
Qed.

(** ** The ways out of [produce_all_cutouts] *)

Section exits.
Context (targets : list string) (src_beam_map : gmap string (gset string)).
Context (delay concurrency_limit min_concurrency_limit : Z) (use_pbs : bool).
Context (pre_active_jobs : option (list Z)) (max_loops : Z).
Context (isfile_completed isfile_failed : Z → Z → bool).
Context (subprocess_call : Z → call_result).
Context (os_sleep : Z → bool).

Local Abbreviation cycle' := (cycle targets src_beam_map concurrency_limit
  min_concurrency_limit use_pbs isfile_completed isfile_failed subprocess_call).
Local Abbreviation while_loop' := (while_loop targets src_beam_map delay
  concurrency_limit min_concurrency_limit use_pbs max_loops isfile_completed
  isfile_failed subprocess_call os_sleep).

Lemma cycle_retires i s : retires targets s (cycle' i s).1.
Proof.
  unfold cycle. apply (bind_preorder (retires targets));
    [by apply retires_frame|].
  intros _ s1. apply job_loop_retires.
Qed.

Lemma while_loop_retires fuel i total_concurrency s :
  retires targets s (while_loop' fuel i total_concurrency s).1.
Proof.
  revert i total_concurrency s.
  induction fuel as [|fuel IH]; intros i total_concurrency s; simpl;
    rewrite bind_run; simpl.
  { destruct (loop_test max_loops i s); reflexivity. }
  destruct (loop_test max_loops i s); [|reflexivity].
  rewrite bind_run. pose proof (cycle_retires (i + 1) s) as Hcycle.
  destruct (cycle _ _ _ _ _ _ _ _ _ s) as [s1 [n|e]]; simpl in *; [|done].
  rewrite bind_run. pose proof (pause_state delay os_sleep (i + 1) s1) as Hpause.
  destruct (pause delay os_sleep _ s1) as [s2 [[]|e]]; simpl in Hpause;
    subst s2;
    [|done].
  etrans; [exact Hcycle|apply IH].
Qed.

(** Where the loop returns: its test is false there, [i] has counted the
    iterations, and without an iteration nothing has happened. *)
Lemma while_loop_exit fuel i total_concurrency s s' i' total' :
  (Z.to_nat (max_loops - i) ≤ fuel)%nat →
  while_loop' fuel i total_concurrency s = (s', Return (i', total')) →
  loop_test max_loops i' s' = false
  ∧ i ≤ i'
  ∧ Z.of_nat (loops (trace s')) = Z.of_nat (loops (trace s)) + (i' - i)
  ∧ (i' = i → s' = s).
Proof.
  revert i total_concurrency s.
  induction fuel as [|fuel IH]; intros i total_concurrency s Hfuel; simpl;
    rewrite bind_run; simpl.
  { assert (loop_test max_loops i s = false) as Htest.
    { unfold loop_test. rewrite (bool_decide_false (i < max_loops)) by lia.
      apply andb_false_r. }
    rewrite Htest. intros [= <- <- <-]. split_and!; [done|lia|lia|done]. }
  destruct (loop_test max_loops i s) eqn:Htest;
    [|intros [= <- <- <-]; split_and!; [done|lia|lia|done]].
  rewrite bind_run. destruct (cycle_loops targets src_beam_map
    concurrency_limit min_concurrency_limit use_pbs isfile_completed
    isfile_failed subprocess_call (i + 1) s) as (evs & Htr & Hevs).
  destruct (cycle _ _ _ _ _ _ _ _ _ s) as [s1 [n|e]]; simpl in *; [|done].
  rewrite bind_run. pose proof (pause_state delay os_sleep (i + 1) s1) as Hpause.
  destruct (pause delay os_sleep _ s1) as [s2 [[]|e]]; simpl in Hpause;
    subst s2;
    [|done].
  intros (Hexit & Hle & Hloops & _)%IH; [|lia].
  split_and!; [done|lia| |lia].
  rewrite Hloops, Htr.
  change (PrintLoop (i + 1) :: evs) with ([PrintLoop (i + 1)] ++ evs).
  rewrite !loops_app, Hevs. unfold loops at 2. simpl. lia.
Qed.

End exits.

(** X16. A run that returns has entered the loop at least once and has
    emptied the queue; every job of the catalogue is retired, its name
    among the completed or the failed ones; and the last thing printed is
    the closing report, with the number of iterations entered. *)
Theorem finished_run targets src_beam_map delay concurrency_limit
    min_concurrency_limit use_pbs pre_active_jobs max_loops
    isfile_completed isfile_failed subprocess_call os_sleep s' :
  produce_all_cutouts targets src_beam_map delay concurrency_limit
    min_concurrency_limit use_pbs pre_active_jobs max_loops
    isfile_completed isfile_failed subprocess_call os_sleep (init_state targets)
  = (s', Return tt) →
  remaining_array_ids s' = []
  ∧ (∀ array_id, 1 ≤ array_id ≤ Z.of_nat (length targets) →
                 retired targets s' array_id)
  ∧ (1 ≤ loops (trace s'))%nat
  ∧ ∃ total_concurrency,
      last (trace s')
      = Some (PrintFinished (Z.of_nat (loops (trace s'))) total_concurrency).
Proof.
  unfold produce_all_cutouts. rewrite bind_run.
  pose proof (pre_activation_queue targets src_beam_map pre_active_jobs
                (init_state targets)) as (Hq & _ & _).
  pose proof (pre_activation_loops targets src_beam_map pre_active_jobs
                (init_state targets)) as (evs0 & Htr0 & Hevs0).
  destruct (pre_activation _ _ _ _) as [s0 [n|e]]; simpl in *; [|done].
  rewrite bind_run.
  pose proof (while_loop_retires targets src_beam_map delay concurrency_limit
    min_concurrency_limit use_pbs max_loops isfile_completed isfile_failed
    subprocess_call os_sleep (Z.to_nat max_loops) 0 (Z.of_nat n) s0) as Hret.
  destruct (while_loop _ _ _ _ _ _ _ _ _ _ _ _ _ _ s0)
    as [s1 [[i total]|e]] eqn:Hloop; simpl in *; [|done].
  apply while_loop_exit in Hloop as (_ & Hi & Hloops & Hsame);
    [|by rewrite Z.sub_0_r].
  rewrite Htr0 in Hloops.
  unfold report. py_unfold.
  case_bool_decide as Hrem; [done|]. case_bool_decide as Hi0; [done|].
  intros [= <-]. simpl.
  assert (remaining_array_ids s1 = []) as Hnil.
  { destruct (remaining_array_ids s1); [done|]. simpl in Hrem. lia. }
  split_and!.
  - done.
  - intros array_id Hid.
    destruct (retires_left _ _ _ Hret array_id) as [Hin|Hdone].
    + rewrite Hq. apply list_elem_of_fmap. exists (Z.to_nat array_id).
      split; [lia|]. apply elem_of_seq. lia.
    + rewrite Hnil in Hin. by apply elem_of_nil in Hin.
    + destruct Hdone as (comp_name & ? & ?). by exists comp_name.
  - rewrite loops_app. lia.
  - exists total. rewrite last_snoc, loops_app. unfold loops at 2. simpl.
    do 3 f_equal. lia.
Qed.

Lemma finished_run_witness :
  let src_beam_map : gmap string (gset string) :=
    <["A" := {["m1"]}]> (<["B" := {["m1"]}]> ∅) in
  ∃ s',
    produce_all_cutouts ["A"; "B"] src_beam_map 0 2 2 false None 10
      (λ i array_id, bool_decide (2 ≤ i ∧ array_id = 1))
      (λ i array_id, bool_decide (2 ≤ i ∧ array_id = 2))
      (λ _, Retcode 0) (λ _, true) (init_state ["A"; "B"]) = (s', Return tt)
    ∧ remaining_array_ids s' = []
    ∧ (∀ array_id, 1 ≤ array_id ≤ 2 → retired ["A"; "B"] s' array_id)
    ∧ (1 ≤ loops (trace s'))%nat
    ∧ ∃ total_concurrency,
        last (trace s')
        = Some (PrintFinished (Z.of_nat (loops (trace s'))) total_concurrency).
Proof.
  intros src_beam_map. eexists. split; [vm_compute; reflexivity|].
  apply (finished_run ["A"; "B"] src_beam_map 0 2 2 false None 10
           (λ i array_id, bool_decide (2 ≤ i ∧ array_id = 1))
           (λ i array_id, bool_decide (2 ≤ i ∧ array_id = 2))
           (λ _, Retcode 0) (λ _, true)).
  vm_compute. reflexivity.
Defined.

(** ** The exceptions of a run *)

Lemma post_state {A} (P : State → Prop) (J : A → State → Prop)
    (Q : exn → State → Prop) (r : State * outcome A) :
  P r.1 → post J Q r → post (λ a s', P s' ∧ J a s') Q r.
Proof. by destruct r as [s [a|e]]. Qed.

Lemma raise_site_mono targets src_beam_map min_concurrency_limit use_pbs
    subprocess_call ids ids' e s :
  ids ⊆ ids' →
  raise_site targets src_beam_map min_concurrency_limit use_pbs
    subprocess_call ids e s →
  raise_site targets src_beam_map min_concurrency_limit use_pbs
    subprocess_call ids' e s.
Proof.
  intros Hsub. destruct e; simpl; try done.
  - intros (array_id & ? & ?). exists array_id. split; [by apply Hsub|done].
  - intros (array_id & comp_name & ? & ?). exists array_id, comp_name.
    split; [by apply Hsub|done].
  - intros (? & ? & ? & ?). split_and!; [done|by apply Hsub|done..].
Qed.

(** [mark_comp_done] raises [KeyError] only for a job that is not
    active, and otherwise only the [ValueError] of [list.remove]. *)
Lemma mark_comp_done_raises array_id tgt_ms s :
  post (λ _ _, True)
       (λ e _, e = ValueError ∨ (e = KeyError ∧ array_id ∉ active_ids s))
       (mark_comp_done array_id tgt_ms s).
Proof.
  unfold mark_comp_done. py_unfold. simpl.
  case_bool_decide as Hact; simpl; [|by right].
  apply (post_for_in (λ _ _, True)); [|done].
  intros ms u s1 _ _. unfold release_one. py_unfold.
  destruct (py_list_remove ms (active_ms s1)); simpl; [done|by left].
Qed.

Section raises.
Context (targets : list string) (src_beam_map : gmap string (gset string)).
Context (concurrency_limit min_concurrency_limit : Z) (use_pbs : bool).
Context (subprocess_call : Z → call_result).

Local Abbreviation raise_site' := (raise_site targets src_beam_map
  min_concurrency_limit use_pbs subprocess_call).

Lemma retire_raises ids array_id comp_name done skipped add_src s :
  array_id ∈ ids →
  py_getitem targets (array_id - 1) = Some comp_name →
  post (λ _ _, True) (raise_site' ids)
       (retire src_beam_map array_id comp_name done skipped add_src s).
Proof.
  intros Hid Hname. unfold retire. rewrite bind_run. simpl.
  apply (post_bind (λ _ _, True)).
  - case_bool_decide as Hact; [|done].
    rewrite bind_run. simpl. unfold lookup_beams. rewrite bind_run.
    destruct (src_beam_map !! comp_name) as [tgt_ms|] eqn:Hms; simpl.
    + eapply post_mono; [| |apply mark_comp_done_raises]; [done|].
      intros e s1 [->|[-> Hnot]]; [done|]. by destruct Hnot.
    + by exists array_id, comp_name.
  - intros _ s1 _. rewrite bind_run. simpl. unfold remove_remaining.
    py_unfold. simpl.
    by destruct (py_list_remove array_id _).
Qed.

Lemma scan_completed_raises isfile_completed isfile_failed ids array_id u s :
  array_id ∈ ids →
  post (λ _ _, True) (raise_site' ids)
       (scan_completed targets src_beam_map isfile_completed isfile_failed
          array_id u s).
Proof.
  intros Hid. unfold scan_completed, lookup_target. rewrite bind_run.
  destruct (py_getitem targets (array_id - 1)) as [comp_name|] eqn:Hname;
    simpl; [|by exists array_id].
  rewrite bind_run. simpl.
  destruct (_ || _); [done|].
  destruct (isfile_completed array_id); [by apply retire_raises|].
  destruct (isfile_failed array_id); [by apply retire_raises|done].
Qed.

Lemma completion_phase_raises isfile_completed isfile_failed s :
  post (λ _ _, True) (raise_site' (remaining_array_ids s))
       (completion_phase targets src_beam_map isfile_completed isfile_failed s).
Proof.
  unfold completion_phase. rewrite bind_run. simpl.
  apply (post_for_in (λ _ _, True)); [|done].
  intros array_id u s1 Hid _. by apply scan_completed_raises.
Qed.

Lemma scan_start_raises ids array_id rate_limited s :
  array_id ∈ ids →
  post (λ _ _, True) (raise_site' ids)
       (scan_start targets src_beam_map concurrency_limit
          min_concurrency_limit use_pbs subprocess_call array_id
          rate_limited s).
Proof.
  intros Hid. unfold scan_start. py_unfold.
  repeat (case_match || case_bool_decide); simplify_eq/=; try done.
  - by left.
  - rewrite last_snoc. split_and!; [done|done|set_solver|by eexists].
  - right. exists array_id. by rewrite last_snoc.
  - by eexists array_id, _.
  - by exists array_id.
Qed.

Lemma admission_phase_raises s :
  post (λ _ _, True) (raise_site' (remaining_array_ids s))
       (admission_phase targets src_beam_map concurrency_limit
          min_concurrency_limit use_pbs subprocess_call s).
Proof.
  unfold admission_phase. rewrite bind_run. simpl.
  apply (post_for_in (λ _ _, True)); [|done].
  intros array_id rate_limited s1 Hid _. by apply scan_start_raises.
Qed.

Lemma job_loop_raises isfile_completed isfile_failed s :
  post (λ _ _, True) (raise_site' (remaining_array_ids s))
       (job_loop targets src_beam_map concurrency_limit min_concurrency_limit
          use_pbs isfile_completed isfile_failed subprocess_call s).
Proof.
  unfold job_loop.
  apply (post_bind (λ _ s1, retires targets s s1 ∧ True)).
  { apply post_state; [|apply completion_phase_raises].
    unfold completion_phase. rewrite bind_run. simpl.
    apply (for_in_preorder (retires targets)).
    intros. apply scan_completed_retires. }
  intros _ s1 [Hret _].
  apply (post_bind (λ _ _, True)); [|done].
  eapply post_mono; [done| |apply admission_phase_raises].
  intros e s2. apply raise_site_mono.
  intros array_id Hin. eapply elem_of_sublist; [done|apply Hret].
Qed.

End raises.

Section run_raises.
Context (targets : list string) (src_beam_map : gmap string (gset string)).
Context (delay concurrency_limit min_concurrency_limit : Z) (use_pbs : bool).
Context (pre_active_jobs : option (list Z)) (max_loops : Z).
Context (isfile_completed isfile_failed : Z → Z → bool).
Context (subprocess_call : Z → call_result).
Context (os_sleep : Z → bool).

Local Abbreviation raise_site' := (raise_site targets src_beam_map
  min_concurrency_limit use_pbs subprocess_call).
Local Abbreviation cycle' := (cycle targets src_beam_map concurrency_limit
  min_concurrency_limit use_pbs isfile_completed isfile_failed subprocess_call).
Local Abbreviation while_loop' := (while_loop targets src_beam_map delay
  concurrency_limit min_concurrency_limit use_pbs max_loops isfile_completed
  isfile_failed subprocess_call os_sleep).

Lemma register_one_raise_site ids array_id u s :
  array_id ∈ ids →
  post (λ _ _, True)
       (λ e s', (e = IndexError ∨ e = KeyError) ∧ raise_site' ids e s')
       (register_one targets src_beam_map array_id u s).
Proof.
  intros Hid. unfold register_one. py_unfold.
  repeat case_match; simplify_eq/=; try done.
  - split; [by right|]. by eexists array_id, _.
  - split; [by left|]. by exists array_id.
Qed.

Lemma pre_activation_raises s :
  post (λ _ _, True)
       (λ e s', (e = IndexError ∨ e = KeyError)
                ∧ raise_site' (default [] pre_active_jobs) e s')
       (pre_activation targets src_beam_map pre_active_jobs s).
Proof.
  unfold pre_activation, register_active. rewrite bind_run. simpl.
  rewrite bind_run. simpl.
  destruct pre_active_jobs as [[|array_id jobs]|]; try done.
  apply (post_bind (λ _ _, True)); [|done].
  apply (post_for_in (λ _ _, True)); [|done].
  intros x u s1 Hx _. by apply register_one_raise_site.
Qed.

Lemma cycle_raises i s :
  post (λ _ _, True) (raise_site' (remaining_array_ids s)) (cycle' i s).
Proof.
  unfold cycle. rewrite bind_run. simpl.
  apply (job_loop_raises targets src_beam_map concurrency_limit
           min_concurrency_limit use_pbs subprocess_call (isfile_completed i)
           (isfile_failed i)
           (mkState (active_ids s) (active_ms s) (remaining_array_ids s)
              (completed_srcs s) (failed_srcs s) (trace s ++ [PrintLoop i]))).
Qed.

Lemma pause_raises i s :
  post (λ _ _, True) (raise_site' []) (pause delay os_sleep i s).
Proof.
  unfold pause, sleep. py_unfold. by repeat (case_bool_decide || case_match).
Qed.

Lemma while_loop_raises fuel i total_concurrency s :
  post (λ _ _, True) (raise_site' (remaining_array_ids s))
       (while_loop' fuel i total_concurrency s).
Proof.
  revert i total_concurrency s.
  induction fuel as [|fuel IH]; intros i total_concurrency s; simpl;
    rewrite bind_run; simpl.
  { by destruct (loop_test max_loops i s). }
  destruct (loop_test max_loops i s); [|done].
  apply (post_bind (λ _ s1, retires targets s s1 ∧ True)).
  { apply post_state; [apply cycle_retires|apply cycle_raises]. }
  intros n s1 [Hret _].
  assert (∀ e s2, raise_site' (remaining_array_ids s1) e s2 →
                  raise_site' (remaining_array_ids s) e s2) as Hmono.
  { intros e s2. apply raise_site_mono. intros array_id Hin.
    eapply elem_of_sublist; [done|apply Hret]. }
  apply (post_bind (λ _ s2, s2 = s1 ∧ True)).
  { apply post_state; [apply pause_state|].
    eapply post_mono; [done| |apply pause_raises].
    intros e s2. apply raise_site_mono. by intros ? ?%elem_of_nil. }
  intros _ s2 [-> _]. eapply post_mono; [done|exact Hmono|apply IH].
Qed.

(** The ways for a run to raise: from a lookup of the pre-activation;
    from the loop, at a site that [raise_site] describes; from the
    division of the report,
    which takes a run that never entered the loop and an empty queue; or
    from line 228, with the loop count at [max_loops]. *)
Lemma produce_all_cutouts_raises s' e :
  produce_all_cutouts targets src_beam_map delay concurrency_limit
    min_concurrency_limit use_pbs pre_active_jobs max_loops
    isfile_completed isfile_failed subprocess_call os_sleep (init_state targets)
  = (s', Raise e) →
  ((e = IndexError ∨ e = KeyError)
   ∧ raise_site' (default [] pre_active_jobs) e s')
  ∨ raise_site' (remaining_array_ids (init_state targets)) e s'
  ∨ (e = ZeroDivisionError ∧ targets = [])
  ∨ (∃ msg, e = Exception msg
            ∧ remaining_array_ids s' ≠ []
            ∧ loops (trace s') = Z.to_nat max_loops
            ∧ msg = exhausted_msg (Z.of_nat (Z.to_nat max_loops))
                      (length (remaining_array_ids s'))
            ∧ last (trace s') = Some (PrintError msg)).
Proof.
  unfold produce_all_cutouts. rewrite bind_run.
  pose proof (pre_activation_queue targets src_beam_map pre_active_jobs
                (init_state targets)) as (Hq & _ & _).
  pose proof (pre_activation_loops targets src_beam_map pre_active_jobs
                (init_state targets)) as (evs0 & Htr0 & Hevs0).
  pose proof (pre_activation_raises (init_state targets)) as Hpre.
  destruct (pre_activation _ _ _ _) as [s0 [n|e0]]; simpl in Hq, Htr0, Hpre.
  2:{ intros [= <- <-]. by left. }
  rewrite bind_run.
  pose proof (while_loop_raises (Z.to_nat max_loops) 0 (Z.of_nat n) s0)
    as Hraise.
  pose proof (while_loop_loops targets src_beam_map delay concurrency_limit
    min_concurrency_limit use_pbs max_loops isfile_completed isfile_failed
    subprocess_call os_sleep (Z.to_nat max_loops) 0 (Z.of_nat n) s0)
    as (evs1 & Htr1 & Hevs1).
  destruct (while_loop _ _ _ _ _ _ _ _ _ _ _ _ _ _ s0)
    as [s1 [[i total]|e1]] eqn:Hloop; simpl in Hraise, Htr1.
  2:{ intros [= <- <-]. right. left. simpl. by rewrite <-Hq. }
  apply while_loop_exit in Hloop as (Htest & Hi & Hloops & Hsame);
    [|by rewrite Z.sub_0_r].
  rewrite Htr0 in Hloops. rewrite Z.sub_0_r in Hloops, Hevs1.
  assert (loops (trace s1) ≤ Z.to_nat max_loops)%nat as Hmax.
  { rewrite Htr1, Htr0, loops_app. lia. }
  unfold report. py_unfold. simpl.
  case_bool_decide as Hrem.
  - intros [= <- <-]. do 3 right. eexists. split; [reflexivity|]. simpl.
    assert (max_loops ≤ i) as Hge.
    { unfold loop_test in Htest. rewrite (bool_decide_true _ Hrem) in Htest.
      simpl in Htest. apply bool_decide_eq_false in Htest. lia. }
    assert (i = Z.of_nat (Z.to_nat max_loops)) as -> by lia.
    split_and!.
    + intros Hnil. rewrite Hnil in Hrem. simpl in Hrem. lia.
    + rewrite loops_app. unfold loops at 2. simpl. lia.
    + done.
    + by rewrite last_snoc.
  - case_bool_decide as Hi0; [|done].
    intros [= <- <-]. right. right. left. split; [done|].
    rewrite (Hsame Hi0), Hq in Hrem. simpl in Hrem.
    rewrite length_fmap, length_seq in Hrem.
    destruct targets; [done|simpl in Hrem; lia].
Qed.

End run_raises.

(** X17. The division of the closing report fails only for an empty
    catalogue: a run over at least one target never ends with
    [ZeroDivisionError], whatever the world answers. *)
Theorem zero_division_needs_empty_catalogue targets src_beam_map delay
    concurrency_limit min_concurrency_limit use_pbs pre_active_jobs max_loops
    isfile_completed isfile_failed subprocess_call os_sleep s' :
  produce_all_cutouts targets src_beam_map delay concurrency_limit
    min_concurrency_limit use_pbs pre_active_jobs max_loops
    isfile_completed isfile_failed subprocess_call os_sleep (init_state targets)
  = (s', Raise ZeroDivisionError) →
  targets = [].
Proof.
  intros [[[?|?] _]|[Hsite|[[_ ?]|(msg & ? & _)]]]%produce_all_cutouts_raises;
    done.
Qed.

Lemma zero_division_needs_empty_catalogue_witness :
  ∃ s', produce_all_cutouts [] ∅ 30 1 1 false (Some []) 5 (λ _ _, false)
          (λ _ _, false) (λ _, Retcode 0) (λ _, true) (init_state [])
        = (s', Raise ZeroDivisionError)
        ∧ @nil string = [].
Proof.
  eexists. split; [vm_compute; reflexivity|].
  eapply (zero_division_needs_empty_catalogue [] ∅ 30 1 1 false (Some []) 5
            (λ _ _, false) (λ _ _, false) (λ _, Retcode 0) (λ _, true)).
  vm_compute. reflexivity.
Defined.

(** X18. The exception of line 228 is raised only by a run that has
    entered [max_loops] iterations (none when [max_loops] is negative) and
    still has jobs in the queue; its message gives that number of loops
    and the length of the queue, and is the last thing printed. *)
Theorem exhausted_only_at_max_loops targets src_beam_map delay
    concurrency_limit min_concurrency_limit use_pbs pre_active_jobs max_loops
    isfile_completed isfile_failed subprocess_call os_sleep s' msg :
  produce_all_cutouts targets src_beam_map delay concurrency_limit
    min_concurrency_limit use_pbs pre_active_jobs max_loops
    isfile_completed isfile_failed subprocess_call os_sleep (init_state targets)
  = (s', Raise (Exception msg)) →
  remaining_array_ids s' ≠ []
  ∧ loops (trace s') = Z.to_nat max_loops
  ∧ msg = exhausted_msg (Z.of_nat (Z.to_nat max_loops))
            (length (remaining_array_ids s'))
  ∧ last (trace s') = Some (PrintError msg).
Proof.
  intros [[[?|?] _]|[Hsite|[[? _]|(msg' & Hmsg & H)]]]%produce_all_cutouts_raises;
    try done.
  by simplify_eq.
Qed.

Lemma exhausted_only_at_max_loops_witness :
  let src_beam_map : gmap string (gset string) := <["A" := {["m1"]}]> ∅ in
  ∃ s' msg,
    produce_all_cutouts ["A"] src_beam_map 30 1 0 false None 2
      (λ _ _, false) (λ _ _, false) (λ _, Retcode 0) (λ _, true) (init_state ["A"])
    = (s', Raise (Exception msg))
    ∧ remaining_array_ids s' ≠ []
    ∧ loops (trace s') = 2%nat
    ∧ msg = exhausted_msg 2 (length (remaining_array_ids s'))
    ∧ last (trace s') = Some (PrintError msg).
Proof.
  intros src_beam_map. eexists _, _. split; [vm_compute; reflexivity|].
  apply (exhausted_only_at_max_loops ["A"] src_beam_map 30 1 0 false None 2
           (λ _ _, false) (λ _ _, false) (λ _, Retcode 0) (λ _, true)).
  vm_compute. reflexivity.
Defined.

(** X19. A run ends with [CommandFailedError] only straight after the
    submission that failed: the command handed to [run_os_cmd] is the last
    event of the trace, its exit code is not zero, the job is one of the
    catalogue, and it is left registered as active. *)
Theorem command_failure_site targets src_beam_map delay concurrency_limit
    min_concurrency_limit use_pbs pre_active_jobs max_loops
    isfile_completed isfile_failed subprocess_call os_sleep s' array_id :
  produce_all_cutouts targets src_beam_map delay concurrency_limit
    min_concurrency_limit use_pbs pre_active_jobs max_loops
    isfile_completed isfile_failed subprocess_call os_sleep
    (init_state targets)
  = (s', Raise (CommandFailedError array_id)) →
  last (trace s') = Some (RunOsCmd use_pbs array_id)
  ∧ 1 ≤ array_id ≤ Z.of_nat (length targets)
  ∧ array_id ∈ active_ids s'
  ∧ ∃ retcode, subprocess_call array_id = Retcode retcode ∧ retcode ≠ 0.
Proof.
  intros [[[?|?] _]|[Hsite|[[? _]|(msg & ? & _)]]]%produce_all_cutouts_raises;
    try done.
  destruct Hsite as (Hlast & Hid & Hactive & Hcode). split_and!; try done.
  - apply list_elem_of_fmap in Hid as (n & -> & Hn%elem_of_seq). lia.
  - apply list_elem_of_fmap in Hid as (n & -> & Hn%elem_of_seq). lia.
Qed.

Lemma command_failure_site_witness :
  let src_beam_map : gmap string (gset string) :=
    <["A" := {["m1"]}]> (<["B" := {["m2"]}]> ∅) in
  let subprocess_call : Z → call_result :=
    λ array_id, Retcode (if bool_decide (array_id = 2) then 1 else 0) in
  ∃ s',
    produce_all_cutouts ["A"; "B"] src_beam_map 30 2 2 false None 500
      (λ _ _, false) (λ _ _, false) subprocess_call (λ _, true)
      (init_state ["A"; "B"])
    = (s', Raise (CommandFailedError 2))
    ∧ last (trace s') = Some (RunOsCmd false 2)
    ∧ 1 ≤ 2 ≤ 2
    ∧ 2 ∈ active_ids s'
    ∧ ∃ retcode, subprocess_call 2 = Retcode retcode ∧ retcode ≠ 0.
Proof.
  intros src_beam_map subprocess_call. eexists.
  split; [vm_compute; reflexivity|].
  apply (command_failure_site ["A"; "B"] src_beam_map 30 2 2 false None 500
           (λ _ _, false) (λ _ _, false) subprocess_call (λ _, true)).
  vm_compute. reflexivity.
Defined.

(** X20. A run ends with [TypeError] only at one of its two sources: the
    conflict test of line 176, reached with more jobs active than
    [min_concurrency_limit], or the handler of [OSError] in [run_os_cmd],
    straight after the submission that could not be made. *)
Theorem type_error_sites targets src_beam_map delay concurrency_limit
    min_concurrency_limit use_pbs pre_active_jobs max_loops
    isfile_completed isfile_failed subprocess_call os_sleep s' :
  produce_all_cutouts targets src_beam_map delay concurrency_limit
    min_concurrency_limit use_pbs pre_active_jobs max_loops
    isfile_completed isfile_failed subprocess_call os_sleep
    (init_state targets)
  = (s', Raise TypeError) →
  min_concurrency_limit < Z.of_nat (size (active_ids s'))
  ∨ ∃ array_id, last (trace s') = Some (RunOsCmd use_pbs array_id)
                ∧ subprocess_call array_id = OSError.
Proof.
  by intros [[[?|?] _]|[Hsite|[[? _]|(msg & ? & _)]]]%produce_all_cutouts_raises.
Qed.

Lemma type_error_sites_witness :
  let src_beam_map : gmap string (gset string) := <["A" := {["m1"]}]> ∅ in
  ∃ s',
    produce_all_cutouts ["A"] src_beam_map 30 2 2 false None 500
      (λ _ _, false) (λ _ _, false) (λ _, OSError) (λ _, true)
      (init_state ["A"])
    = (s', Raise TypeError)
    ∧ (2 < Z.of_nat (size (active_ids s'))
       ∨ ∃ array_id, last (trace s') = Some (RunOsCmd false array_id)
                     ∧ OSError = OSError).
Proof.
  intros src_beam_map. eexists. split; [vm_compute; reflexivity|].
  apply (type_error_sites ["A"] src_beam_map 30 2 2 false None 500
           (λ _ _, false) (λ _ _, false) (λ _, OSError) (λ _, true)).
  vm_compute. reflexivity.
Defined.

(** X21. With targets and map read from the same table, and every
    pre-active id a job id of the catalogue, no lookup of a run fails: a
    run never ends with [IndexError] or [KeyError]. *)
Theorem catalogue_run_lookups image_params delay concurrency_limit
    min_concurrency_limit use_pbs pre_active_jobs max_loops
    isfile_completed isfile_failed subprocess_call os_sleep s' e :
  (∀ array_id, array_id ∈ default [] pre_active_jobs →
               1 ≤ array_id
               ≤ Z.of_nat (length (read_image_params image_params))) →
  produce_all_cutouts (read_image_params image_params)
    (build_map image_params) delay concurrency_limit min_concurrency_limit
    use_pbs pre_active_jobs max_loops isfile_completed isfile_failed
    subprocess_call os_sleep (init_state (read_image_params image_params))
  = (s', Raise e) →
  e ≠ IndexError ∧ e ≠ KeyError.
Proof.
  intros Hpre Hrun.
  assert (∀ array_id,
    1 ≤ array_id ≤ Z.of_nat (length (read_image_params image_params)) →
    ∃ comp_name tgt_ms,
      py_getitem (read_image_params image_params) (array_id - 1)
      = Some comp_name
      ∧ build_map image_params !! comp_name = Some tgt_ms) as Hok.
  { intros array_id (tgt_ms & Hms & _)%catalogue_job_ms.
    apply job_ms_Some in Hms as (comp_name & ? & ?). eauto. }
  assert (∀ array_id,
    array_id ∈ remaining_array_ids (init_state (read_image_params image_params)) →
    1 ≤ array_id ≤ Z.of_nat (length (read_image_params image_params)))
    as Hinit.
  { intros array_id (n & -> & Hn%elem_of_seq)%list_elem_of_fmap. lia. }
  apply produce_all_cutouts_raises
    in Hrun as [[_ Hsite]|[Hsite|[[-> _]|(msg & -> & _)]]]; [| |done..].
  - split; intros ->; simpl in Hsite.
    + destruct Hsite as (array_id & Hid & Hnone).
      destruct (Hok array_id (Hpre array_id Hid)) as (? & ? & ? & ?).
      congruence.
    + destruct Hsite as (array_id & comp_name & Hid & Hname & Hnone).
      destruct (Hok array_id (Hpre array_id Hid)) as (? & ? & ? & ?).
      congruence.
  - split; intros ->; simpl in Hsite.
    + destruct Hsite as (array_id & Hid & Hnone).
      destruct (Hok array_id (Hinit array_id Hid)) as (? & ? & ? & ?).
      congruence.
    + destruct Hsite as (array_id & comp_name & Hid & Hname & Hnone).
      destruct (Hok array_id (Hinit array_id Hid)) as (? & ? & ? & ?).
      congruence.
Qed.

Lemma catalogue_run_lookups_witness :
  let image_params := [("A", "m1"); ("B", "m1"); ("A", "m2")] in
  ∃ s' e,
    produce_all_cutouts (read_image_params image_params)
      (build_map image_params) 30 3 0 false (Some [2]) 500 (λ _ _, false)
      (λ _ _, false) (λ _, Retcode 0) (λ _, true)
      (init_state (read_image_params image_params))
    = (s', Raise e)
    ∧ e ≠ IndexError ∧ e ≠ KeyError.
Proof.
  intros image_params. eexists _, _. split; [vm_compute; reflexivity|].
  eapply (catalogue_run_lookups image_params 30 3 0 false (Some [2]) 500
           (λ _ _, false) (λ _ _, false) (λ _, Retcode 0) (λ _, true)).
  - intros array_id ->%list_elem_of_singleton. vm_compute.
    split; discriminate.
  - vm_compute. reflexivity.
Defined.
